(** * speedreading: RSVP video generator and its job backend

    A shallow embedding of [speedreading.py] (tokenizer, ORP calculator,
    pacing scheduler, frame layout) and of the [backend] package (job
    manager, submission route, background worker), followed by the
    properties established about them.

    Conventions.
    - A Python [str] is a list of Unicode code points ([N]); the Unicode
      predicates [str.isalnum] and [str.isspace] are section variables.
    - A Python [int] is a [Z]; a Python [float] is idealised as a real
      number ([R]): rounding of binary64 arithmetic is not modelled.
    - The job directory [storage/jobs] is a finite map from job id to the
      decoded JSON record. *)

From Stdlib Require Import ZArith QArith List String Ascii Reals Lra Lia Bool
  Sorted.
From stdpp Require Import gmap strings list pretty.

(** ** Python strings *)

Definition char := N.
Definition str := list char.

(** Code points of an ASCII literal. *)
Definition str_of (s : string) : str :=
  map N_of_ascii (list_ascii_of_string s).

(** [c in s] for a one-character [c]. *)
Definition char_in (c : char) (s : str) : bool :=
  existsb (N.eqb c) s.

(** [str.isalnum] and [str.isspace] on the ASCII range, used to evaluate
    the definitions on concrete ASCII inputs. *)
Definition ascii_isalnum (c : char) : bool :=
  ((48 <=? c) && (c <=? 57) || (65 <=? c) && (c <=? 90)
   || (97 <=? c) && (c <=? 122))%N.

Definition ascii_isspace (c : char) : bool :=
  ((9 <=? c) && (c <=? 13) || (28 <=? c) && (c <=? 31) || (c =? 32))%N.

(** Python list indexing [l[i]]: negative indices count from the end,
    anything else out of range raises [IndexError] ([None]). *)
Definition py_index {A} (l : list A) (i : Z) : option A :=
  let n := Z.of_nat (length l) in
  if (0 <=? i)%Z && (i <? n)%Z then l !! Z.to_nat i
  else if (- n <=? i)%Z && (i <? 0)%Z then l !! Z.to_nat (n + i)
  else None.

(** Python slice [l[:i]]; never raises. *)
Definition py_slice_to {A} (l : list A) (i : Z) : list A :=
  let n := Z.of_nat (length l) in
  if (0 <=? i)%Z then take (Z.to_nat i) l
  else take (Z.to_nat (n + i)) l.

Definition sumZ (l : list Z) : Z := fold_right Z.add 0%Z l.

(** [range(n)] *)
Definition range (n : Z) : list Z := map Z.of_nat (seq 0 (Z.to_nat n)).

(** Exceptions, with the text [str(e)] of each. *)
Inductive exn :=
| ValueError (msg : string)
| IndexError (msg : string)
| HTTPException (status_code : Z) (detail : string)
| StageError (msg : string).

Definition exn_str (e : exn) : string :=
  match e with
  | ValueError m | IndexError m | StageError m => m
  | HTTPException _ d => d
  end.

Inductive result (A : Type) :=
| Ok (a : A)
| Raise (e : exn).
Arguments Ok {A} a.
Arguments Raise {A} e.

Definition bind {A B} (r : result A) (k : A -> result B) : result B :=
  match r with
  | Ok a => k a
  | Raise e => Raise e
  end.

Notation "'do' x <- r ; k" := (bind r (fun x => k))
  (at level 10, x name, r at level 100, k at level 200).

(** ** speedreading.py *)

Module Speedreading.

Local Open Scope Z_scope.

Section Text.

Variable isalnum : char -> bool.
Variable isspace : char -> bool.

(** [str.split()] with no separator: maximal runs of non-whitespace. The
    accumulator [cur] holds the current run, reversed. *)
Fixpoint split_from (cur : str) (text : str) : list str :=
  match text with
  | [] => match cur with [] => [] | _ => [rev cur] end
  | c :: rest =>
      if isspace c then
        match cur with
        | [] => split_from [] rest
        | _ => rev cur :: split_from [] rest
        end
      else split_from (c :: cur) rest
  end.

Definition split (text : str) : list str := split_from [] text.

Fixpoint lstrip (s : str) : str :=
  match s with
  | [] => []
  | c :: rest => if isspace c then lstrip rest else s
  end.

Definition strip (s : str) : str := rev (lstrip (rev (lstrip s))).

Definition truthy (s : str) : bool :=
  match s with [] => false | _ => true end.

(** [re.sub(r'\s+', ' ', text)]: every maximal whitespace run becomes one
    space; [in_run] tells whether the previous character was whitespace. *)
Fixpoint collapse_whitespace (in_run : bool) (text : str) : str :=
  match text with
  | [] => []
  | c :: rest =>
      if isspace c then
        if in_run then collapse_whitespace true rest
        else 32%N :: collapse_whitespace true rest
      else c :: collapse_whitespace false rest
  end.

(** [re.sub(r'\n{3,}', '\n\n', text)]: [pending] newlines have been read
    and not yet written; a run of three or more is written as two. *)
Fixpoint collapse_newlines (pending : nat) (text : str) : str :=
  match text with
  | [] => repeat 10%N (Nat.min pending 2)
  | c :: rest =>
      if (c =? 10)%N then collapse_newlines (S pending) rest
      else repeat 10%N (Nat.min pending 2) ++ c :: collapse_newlines 0 rest
  end.

Definition clean_text (text : str) : str :=
  let text := collapse_whitespace false text in
  let text := collapse_newlines 0 text in
  strip text.

(** [tokenize_text]: [[w for w in text.split() if w.strip()]]. *)
Definition tokenize_text (text : str) : list str :=
  List.filter (fun w => truthy (strip w)) (split text).

(** [calculate_orp]: the Spritz-style table on the word length. *)
Definition calculate_orp (word : str) : Z :=
  let length := Z.of_nat (length word) in
  if length <=? 1 then 0
  else if length <=? 5 then 1
  else if length <=? 9 then 2
  else if length <=? 13 then 3
  else 4.

Record WordFrame := mkWordFrame {
  word : str;
  orp_index : Z;
  duration : R
}.

(** [''.join(c for c in word if c.isalnum())] *)
Definition clean_word (w : str) : str := List.filter isalnum w.

(** The [leading_punct] loop: counts characters up to the first
    alphanumeric one. *)
Fixpoint leading_punct (w : str) : Z :=
  match w with
  | [] => 0
  | c :: rest => if isalnum c then 0 else 1 + leading_punct rest
  end.

(** [any(c in word for c in marks)] *)
Definition any_in (marks : str) (w : str) : bool :=
  existsb (fun c => char_in c w) marks.

Definition word_duration (w : str) (wpm : R) : R :=
  let duration := (60 / wpm)%R in
  if any_in (str_of ".!?") w then (duration * 1.5)%R
  else if any_in (str_of ",;:") w then (duration * 1.2)%R
  else duration.

(** Body of the per-word loop of [generate_speed_reading_video] up to the
    construction of the [WordFrame]. *)
Definition word_frame_of (w : str) (wpm : R) : WordFrame :=
  let orp := match clean_word w with [] => 0 | cw => calculate_orp cw end in
  mkWordFrame w (orp + leading_punct w) (word_duration w wpm).

(** The frames built by the loop over [zip(words, wpm_schedule)]. *)
Definition word_frames (words : list str) (wpm_schedule : list R)
  : list WordFrame :=
  map (fun p => word_frame_of (fst p) (snd p)) (zip words wpm_schedule).

(** The highlight position [render_word_frame] computes from a frame. *)
Definition orp_idx (wf : WordFrame) : Z :=
  Z.min (orp_index wf) (Z.of_nat (length (word wf)) - 1).

End Text.

(** *** Pacing scheduler *)

(** [int(total_words * 0.1)]: the product has the integer part of
    [total_words / 10] for every word count a document can have, and
    [int] truncates toward zero. *)
Definition int_tenth (total_words : Z) : Z := Z.quot total_words 10.

(** The value of [ramp_words] after the default and the clamp. *)
Definition resolve_ramp_words (total_words : Z) (ramp_words : option Z) : Z :=
  let ramp_words :=
    match ramp_words with
    | None => Z.max 20 (int_tenth total_words)
    | Some r => r
    end in
  Z.min ramp_words total_words.

Definition smooth_wpm (start_wpm peak_wpm : R) (ramp_words i : Z) : R :=
  if i <? ramp_words then
    let progress := (IZR i / IZR ramp_words)%R in
    let smooth_progress := ((1 - cos (progress * PI)) / 2)%R in
    (start_wpm + (peak_wpm - start_wpm) * smooth_progress)%R
  else peak_wpm.

Definition linear_wpm (start_wpm peak_wpm : R) (ramp_words i : Z) : R :=
  if i <? ramp_words then
    let progress := (IZR i / IZR ramp_words)%R in
    (start_wpm + (peak_wpm - start_wpm) * progress)%R
  else peak_wpm.

Definition stepped_wpm (start_wpm peak_wpm : R) (ramp_words i : Z) : R :=
  let num_steps := 6 in
  let words_per_step := Z.max 1 (ramp_words / num_steps) in
  let wpm_step := ((peak_wpm - start_wpm) / IZR num_steps)%R in
  if i <? ramp_words then
    let step := Z.min (i / words_per_step) num_steps in
    (start_wpm + wpm_step * IZR step)%R
  else peak_wpm.

Definition create_wpm_schedule (start_wpm peak_wpm : R) (total_words : Z)
    (ramp_words : option Z) (ramp_style : string) : result (list R) :=
  if total_words <=? 1 then Ok [start_wpm]
  else
    let ramp_words := resolve_ramp_words total_words ramp_words in
    if String.eqb ramp_style "smooth" then
      Ok (map (smooth_wpm start_wpm peak_wpm ramp_words) (range total_words))
    else if String.eqb ramp_style "linear" then
      Ok (map (linear_wpm start_wpm peak_wpm ramp_words) (range total_words))
    else if String.eqb ramp_style "stepped" then
      Ok (map (stepped_wpm start_wpm peak_wpm ramp_words) (range total_words))
    else Raise (ValueError ("Unknown ramp_style: " +:+ ramp_style)).

(** The three ramp styles the scheduler knows. *)
Definition known_style (ramp_style : string) : Prop :=
  ramp_style = "smooth"%string \/ ramp_style = "linear"%string
  \/ ramp_style = "stepped"%string.

(** *** Frame composer *)

(** What is drawn on the image, in drawing order. *)
Inductive draw_cmd :=
| DrawLine (x0 y0 x1 y1 : Z) (fill : string) (width : Z)
| DrawText (x y : Z) (c : char) (fill : string).

Record Frame := mkFrame {
  frame_width : Z;
  frame_height : Z;
  background : string;
  drawn : list draw_cmd
}.

Section Render.

(** Font metrics: the advance measured for one character,
    [bbox[2] - bbox[0]] of [draw.textbbox((0, 0), c)], and the bounding
    box of the probe string ["Aygjpq"]. *)
Variable char_width : char -> Z.
Variable reference_top : Z.
Variable reference_bottom : Z.

(** Lines 295-310: the clamped highlight position and the x coordinate
    at which the first character is drawn. *)
Definition layout (wf : WordFrame) (width : Z) : result (Z * list Z * Z) :=
  let word := word wf in
  let orp_idx := Z.min (orp_index wf) (Z.of_nat (length word) - 1) in
  let char_widths := map char_width word in
  let center_x := width / 2 in
  do orp_char_width <-
    match char_widths with
    | [] => Ok 0
    | _ => match py_index char_widths orp_idx with
           | Some w => Ok w
           | None => Raise (IndexError "list index out of range")
           end
    end;
  let chars_before_orp_width := sumZ (py_slice_to char_widths orp_idx) in
  let start_x := center_x - chars_before_orp_width - orp_char_width / 2 in
  Ok (orp_idx, char_widths, start_x).

(** Lines 329-333: the loop drawing one character after the other;
    [items] is what is left of [enumerate(word)]. *)
Fixpoint draw_chars (char_widths : list Z) (orp_idx y_base : Z)
    (text_color orp_color : string) (current_x : Z) (items : list (Z * char))
  : result (list draw_cmd) :=
  match items with
  | [] => Ok []
  | (i, c) :: rest =>
      let color := if i =? orp_idx then orp_color else text_color in
      match py_index char_widths i with
      | None => Raise (IndexError "list index out of range")
      | Some w =>
          do cmds <- draw_chars char_widths orp_idx y_base text_color
                       orp_color (current_x + w) rest;
          Ok (DrawText current_x y_base c color :: cmds)
      end
  end.

Definition enumerate (word : str) : list (Z * char) :=
  zip (range (Z.of_nat (length word))) word.

Definition render_word_frame (wf : WordFrame) (width height : Z)
    (bg_color text_color orp_color : string) : result Frame :=
  do lay <- layout wf width;
  let '(orp_idx, char_widths, start_x) := lay in
  let center_x := width / 2 in
  let reference_height := reference_bottom - reference_top in
  let y_base := (height - reference_height) / 2 - reference_top in
  let line_color := "#444444"%string in
  let line_top := (height - reference_height) / 2 - 20 in
  let line_bottom := (height + reference_height) / 2 + 20 in
  let marks :=
    [DrawLine center_x line_top center_x (line_top + 15) line_color 2;
     DrawLine center_x (line_bottom - 15) center_x line_bottom line_color 2] in
  do chars <- draw_chars char_widths orp_idx y_base text_color orp_color
                start_x (enumerate (word wf));
  Ok (mkFrame width height bg_color (marks ++ chars)).

End Render.

(** *** Joining and video generation *)

(** [sep.join(words)] *)
Fixpoint join (sep : str) (words : list str) : str :=
  match words with
  | [] => []
  | w :: rest =>
      match rest with
      | [] => w
      | _ => w ++ sep ++ join sep rest
      end
  end.

(** A well-formed token: not empty and free of whitespace. *)
Definition is_token (isspace : char -> bool) (w : str) : Prop :=
  w <> [] /\ Forall (fun c => isspace c = false) w.

(** One [ImageClip] of the list handed to the encoder: the rendered
    frame, the wpm whose integer part is overlaid when [show_wpm] is set,
    and the duration for which the frame is held. *)
Record Clip := mkClip {
  clip_frame : Frame;
  clip_wpm_shown : option R;
  clip_duration : R
}.

Section Generate.

Variable isalnum : char -> bool.
Variable isspace : char -> bool.
Variable char_width : char -> Z.
Variable reference_top : Z.
Variable reference_bottom : Z.

(** The body of the per-word loop of [generate_speed_reading_video]:
    [60.0 / wpm] raises [ZeroDivisionError] for a zero [wpm]; the frame
    is then built and rendered. *)
Definition word_clip (width height : Z)
    (bg_color text_color orp_color : string) (show_wpm : bool)
    (w : str) (wpm : R) : result Clip :=
  if Req_dec_T wpm 0 then Raise (StageError "float division by zero")
  else
    let word_frame := word_frame_of isalnum w wpm in
    do frame <- render_word_frame char_width reference_top reference_bottom
                  word_frame width height bg_color text_color orp_color;
    Ok (mkClip frame (if show_wpm then Some wpm else None)
          (duration word_frame)).

(** The loop over [zip(words, wpm_schedule)]; the first exception ends
    it. *)
Fixpoint word_clips (width height : Z)
    (bg_color text_color orp_color : string) (show_wpm : bool)
    (items : list (str * R)) : result (list Clip) :=
  match items with
  | [] => Ok []
  | (w, wpm) :: rest =>
      do clip <- word_clip width height bg_color text_color orp_color
                   show_wpm w wpm;
      do clips <- word_clips width height bg_color text_color orp_color
                    show_wpm rest;
      Ok (clip :: clips)
  end.

(** [generate_speed_reading_video] up to the call of the encoder: the
    result is the list [clips] that [concatenate_videoclips] receives. *)
Definition generate_speed_reading_video (text : str)
    (start_wpm peak_wpm : R) (ramp_words : option Z) (ramp_style : string)
    (width height : Z) (bg_color text_color orp_color : string)
    (show_wpm : bool) : result (list Clip) :=
  let text := clean_text isspace text in
  let words := tokenize_text isspace text in
  match words with
  | [] => Raise (ValueError "No words found in text")
  | _ =>
      do wpm_schedule <-
        create_wpm_schedule start_wpm peak_wpm (Z.of_nat (length words))
          ramp_words ramp_style;
      word_clips width height bg_color text_color orp_color show_wpm
        (zip words wpm_schedule)
  end.

End Generate.

End Speedreading.

(** ** backend *)

Module Backend.

(** *** models.py *)

Inductive JobStatus := PENDING | PROCESSING | COMPLETED | FAILED.

Inductive RampStyle := SMOOTH | LINEAR | STEPPED.

Definition RampStyle_value (r : RampStyle) : string :=
  match r with
  | SMOOTH => "smooth"
  | LINEAR => "linear"
  | STEPPED => "stepped"
  end.

Record VideoParams := mkVideoParams {
  start_wpm : Z;
  peak_wpm : Z;
  ramp_words : option Z;
  ramp_style : RampStyle;
  chunk_duration : option Q;
  width : Z;
  height : Z;
  font_size : Z;
  fps : Z;
  bg_color : string;
  text_color : string;
  orp_color : string;
  show_wpm : bool;
  preprocess : bool
}.

(** The decoded [params] form field: the keys of [VideoParams] that the
    JSON object carries, each absent ([None]) or present. *)
Record ParamsDict := mkParamsDict {
  d_start_wpm : option Z;
  d_peak_wpm : option Z;
  d_ramp_words : option Z;
  d_ramp_style : option string;
  d_chunk_duration : option Q;
  d_width : option Z;
  d_height : option Z;
  d_font_size : option Z;
  d_fps : option Z;
  d_bg_color : option string;
  d_text_color : option string;
  d_orp_color : option string;
  d_show_wpm : option bool;
  d_preprocess : option bool
}.

Definition validation_error {A} (field : string) : result A :=
  Raise (ValueError ("validation error for VideoParams: " +:+ field)).

(** [Field(default=..., ge=..., le=...)] on an integer field. *)
Definition int_field (name : string) (v : option Z) (default ge le : Z)
  : result Z :=
  match v with
  | None => Ok default
  | Some x => if (ge <=? x)%Z && (x <=? le)%Z then Ok x
              else validation_error name
  end.

(** [Optional[...] = Field(default=None, ge=..., le=...)] *)
Definition opt_int_field (name : string) (v : option Z) (ge le : Z)
  : result (option Z) :=
  match v with
  | None => Ok None
  | Some x => if (ge <=? x)%Z && (x <=? le)%Z then Ok (Some x)
              else validation_error name
  end.

Definition opt_float_field (name : string) (v : option Q) (ge le : Q)
  : result (option Q) :=
  match v with
  | None => Ok None
  | Some x => if Qle_bool ge x && Qle_bool x le then Ok (Some x)
              else validation_error name
  end.

Definition is_hex_digit (a : ascii) : bool :=
  let n := nat_of_ascii a in
  ((48 <=? n) && (n <=? 57) || (65 <=? n) && (n <=? 70)
   || (97 <=? n) && (n <=? 102))%nat.

(** The pattern [^#[0-9a-fA-F]{6}$]. *)
Definition is_hex_color (s : string) : bool :=
  match list_ascii_of_string s with
  | h :: digits =>
      Ascii.eqb h "#" && (length digits =? 6)%nat && forallb is_hex_digit digits
  | [] => false
  end.

Definition color_field (name : string) (v : option string) (default : string)
  : result string :=
  match v with
  | None => Ok default
  | Some c => if is_hex_color c then Ok c else validation_error name
  end.

Definition ramp_style_field (v : option string) : result RampStyle :=
  match v with
  | None => Ok SMOOTH
  | Some s =>
      if String.eqb s "smooth" then Ok SMOOTH
      else if String.eqb s "linear" then Ok LINEAR
      else if String.eqb s "stepped" then Ok STEPPED
      else validation_error "ramp_style"
  end.

Definition value_or {A} (v : option A) (d : A) : A :=
  match v with Some x => x | None => d end.

(** The constructor [VideoParams] applied to the decoded dictionary. *)
Definition VideoParams_validate (d : ParamsDict) : result VideoParams :=
  do start_wpm <- int_field "start_wpm" (d_start_wpm d) 200 50 1000;
  do peak_wpm <- int_field "peak_wpm" (d_peak_wpm d) 600 100 2000;
  do ramp_words <- opt_int_field "ramp_words" (d_ramp_words d) 10 500;
  do ramp_style <- ramp_style_field (d_ramp_style d);
  do chunk_duration <-
    opt_float_field "chunk_duration" (d_chunk_duration d) 5 300;
  do width <- int_field "width" (d_width d) 1920 640 3840;
  do height <- int_field "height" (d_height d) 1080 480 2160;
  do font_size <- int_field "font_size" (d_font_size d) 120 24 300;
  do fps <- int_field "fps" (d_fps d) 30 15 60;
  do bg_color <- color_field "bg_color" (d_bg_color d) "#1a1a2e";
  do text_color <- color_field "text_color" (d_text_color d) "#ffffff";
  do orp_color <- color_field "orp_color" (d_orp_color d) "#ff0000";
  Ok (mkVideoParams start_wpm peak_wpm ramp_words ramp_style chunk_duration
        width height font_size fps bg_color text_color orp_color
        (value_or (d_show_wpm d) true) (value_or (d_preprocess d) true)).

Record JobResponse := mkJobResponse {
  r_id : string;
  r_status : JobStatus;
  r_filename : string;
  r_params : VideoParams;
  r_created_at : string;
  r_started_at : option string;
  r_completed_at : option string;
  r_progress_percent : Z;
  r_current_step : string;
  r_total_words : option Z;
  r_processed_words : option Z;
  r_output_files : list string;
  r_error_message : option string;
  r_video_duration_seconds : option R
}.

(** *** services/job_manager.py *)

(** The JSON record of one job, [storage/jobs/{id}.json]. *)
Record JobData := mkJobData {
  id : string;
  status : JobStatus;
  filename : string;
  upload_path : string;
  params : VideoParams;
  created_at : string;
  started_at : option string;
  completed_at : option string;
  progress_percent : Z;
  current_step : string;
  total_words : option Z;
  processed_words : option Z;
  output_files : list string;
  error_message : option string;
  video_duration_seconds : option R
}.

(** One [key=value] of the keyword arguments of [update_job]. *)
Inductive update :=
| set_id (v : string)
| set_status (v : JobStatus)
| set_filename (v : string)
| set_upload_path (v : string)
| set_params (v : VideoParams)
| set_created_at (v : string)
| set_started_at (v : option string)
| set_completed_at (v : option string)
| set_progress_percent (v : Z)
| set_current_step (v : string)
| set_total_words (v : option Z)
| set_processed_words (v : option Z)
| set_output_files (v : list string)
| set_error_message (v : option string)
| set_video_duration_seconds (v : option R).

Definition apply_update (j : JobData) (u : update) : JobData :=
  let '(mkJobData a b c d e f g h i k l m n o p) := j in
  match u with
  | set_id v => mkJobData v b c d e f g h i k l m n o p
  | set_status v => mkJobData a v c d e f g h i k l m n o p
  | set_filename v => mkJobData a b v d e f g h i k l m n o p
  | set_upload_path v => mkJobData a b c v e f g h i k l m n o p
  | set_params v => mkJobData a b c d v f g h i k l m n o p
  | set_created_at v => mkJobData a b c d e v g h i k l m n o p
  | set_started_at v => mkJobData a b c d e f v h i k l m n o p
  | set_completed_at v => mkJobData a b c d e f g v i k l m n o p
  | set_progress_percent v => mkJobData a b c d e f g h v k l m n o p
  | set_current_step v => mkJobData a b c d e f g h i v l m n o p
  | set_total_words v => mkJobData a b c d e f g h i k v m n o p
  | set_processed_words v => mkJobData a b c d e f g h i k l v n o p
  | set_output_files v => mkJobData a b c d e f g h i k l m v o p
  | set_error_message v => mkJobData a b c d e f g h i k l m n v p
  | set_video_duration_seconds v => mkJobData a b c d e f g h i k l m n o v
  end.

(** [job_data.update(updates)] *)
Definition dict_update (j : JobData) (updates : list update) : JobData :=
  fold_left apply_update updates j.

(** [_to_response] *)
Definition to_response (j : JobData) : JobResponse :=
  mkJobResponse (id j) (status j) (filename j) (params j) (created_at j)
    (started_at j) (completed_at j) (progress_percent j) (current_step j)
    (total_words j) (processed_words j) (output_files j) (error_message j)
    (video_duration_seconds j).

(** The storage directory: job records by id, uploaded files by path,
    the listing of each job's output directory; the number of ids drawn
    from [uuid4] so far; the background tasks queued so far. *)
Record State := mkState {
  jobs : gmap string JobData;
  uploads : gmap string string;
  outputs : gmap string (list string);
  minted : nat;
  tasks : list string
}.

Definition with_jobs (s : State) (js : gmap string JobData) : State :=
  mkState js (uploads s) (outputs s) (minted s) (tasks s).

Section Manager.

(** [str(uuid.uuid4())] at the n-th draw. *)
Variable uuid4 : nat -> string.

(** [JobManager.create_job] *)
Definition create_job_id (s : State) : string * State :=
  (substring 0 8 (uuid4 (minted s)),
   mkState (jobs s) (uploads s) (outputs s) (S (minted s)) (tasks s)).

End Manager.

(** [JobManager.initialize_job]; [now] is [datetime.utcnow().isoformat()]. *)
Definition initialize_job (job_id filename upload_path : string)
    (params : VideoParams) (now : string) (s : State) : JobResponse * State :=
  let job_data :=
    mkJobData job_id PENDING filename upload_path params now None None 0
      "Queued" None None [] None None in
  (to_response job_data, with_jobs s (<[job_id := job_data]> (jobs s))).

Definition get_job (job_id : string) (s : State) : option JobResponse :=
  match jobs s !! job_id with
  | None => None
  | Some job_data => Some (to_response job_data)
  end.

Definition get_job_data (job_id : string) (s : State) : option JobData :=
  jobs s !! job_id.

Definition update_job (job_id : string) (updates : list update) (s : State)
  : option JobResponse * State :=
  match jobs s !! job_id with
  | None => (None, s)
  | Some job_data =>
      let job_data := dict_update job_data updates in
      (Some (to_response job_data),
       with_jobs s (<[job_id := job_data]> (jobs s)))
  end.

Definition delete_job (job_id : string) (s : State) : bool * State :=
  match get_job_data job_id s with
  | None => (false, s)
  | Some job_data =>
      (true,
       mkState (delete job_id (jobs s))
         (delete (upload_path job_data) (uploads s))
         (delete job_id (outputs s))
         (minted s) (tasks s))
  end.

(** *** services/file_handler.py *)

Record UploadFile := mkUploadFile {
  upload_filename : option string;
  upload_content : string
}.

(** [x or d] on an optional string: [None] and the empty string are
    falsy. *)
Definition str_or (x : option string) (d : string) : string :=
  match x with
  | Some (String a r) => String a r
  | _ => d
  end.

Definition ALLOWED_EXTENSIONS : list string := [".pdf"; ".epub"; ".txt"].

Definition UPLOADS_DIR : string := "storage/uploads".

Section Routes.

(** Library functions: [Path(name).suffix], [Path(name).stem],
    [str.lower], [json.loads] followed by the reading of the keys of
    [VideoParams], and the random [uuid4]. *)
Variable path_suffix : string -> string.
Variable path_stem : string -> string.
Variable str_lower : string -> string.
Variable json_loads : string -> result ParamsDict.
Variable uuid4 : nat -> string.

Definition validate_file (file : UploadFile) : result unit :=
  let filename := str_or (upload_filename file) "" in
  let ext := str_lower (path_suffix filename) in
  if existsb (String.eqb ext) ALLOWED_EXTENSIONS then Ok tt
  else Raise (HTTPException 400
                ("Invalid file type '" +:+ ext
                 +:+ "'. Allowed: .pdf, .epub, .txt")).

Definition save_upload (file : UploadFile) (job_id : string) (s : State)
  : string * State :=
  let filename :=
    str_or (upload_filename file)
      ("upload" +:+ path_suffix (str_or (upload_filename file) ".txt")) in
  let safe_filename := job_id +:+ "_" +:+ filename in
  let upload_path := UPLOADS_DIR +:+ "/" +:+ safe_filename in
  (upload_path,
   mkState (jobs s) (<[upload_path := upload_content file]> (uploads s))
     (outputs s) (minted s) (tasks s)).

(** *** routes/jobs.py *)

Definition add_task (job_id : string) (s : State) : State :=
  mkState (jobs s) (uploads s) (outputs s) (minted s) (tasks s ++ [job_id]).

(** The POST route; [now] is the clock reading taken by
    [initialize_job]. *)
Definition create_job (file : UploadFile) (params : string) (now : string)
    (s : State) : result JobResponse * State :=
  match validate_file file with
  | Raise e => (Raise e, s)
  | Ok _ =>
      match (do params_dict <- json_loads params;
             VideoParams_validate params_dict) with
      | Raise e =>
          (Raise (HTTPException 400 ("Invalid parameters: " +:+ exn_str e)), s)
      | Ok video_params =>
          let '(job_id, s) := create_job_id uuid4 s in
          let '(upload_path, s) := save_upload file job_id s in
          let '(job, s) :=
            initialize_job job_id (str_or (upload_filename file) "upload")
              upload_path video_params now s in
          (Ok job, add_task job_id s)
      end
  end.

(** *** workers/background.py *)

(** Truth value of an optional float: [None] and [0.0] are falsy. *)
Definition float_truthy (x : option Q) : bool :=
  match x with
  | Some q => negb (Qeq_bool q 0)
  | None => false
  end.

(** Where the worker stands in [process_video_job]; the constructors
    carry the local variables that are live at that point. *)
Inductive pc :=
| at_get_job
| at_mark_processing (job : JobResponse)
| at_get_job_data (job : JobResponse)
| at_extract (job : JobResponse) (upload_path : string)
| at_report_words (job : JobResponse) (text : str) (total_words : Z)
| at_mkdir (job : JobResponse) (text : str)
| at_report_generating (job : JobResponse) (text : str)
| at_generate (job : JobResponse) (text : str)
| at_measure (output_filenames : list string)
| at_mark_completed (output_filenames : list string) (total_duration : R)
| at_mark_failed (e : exn)
| finished.

(** What the outside world answers during one step: the clock, and the
    outcome of the stage the step runs (text extraction, creation of the
    output directory, video generation with the names of the files it
    wrote, measured duration of the written files). *)
Record Oracle := mkOracle {
  now : string;
  extracted : result str;
  made_dir : result unit;
  generated : result (list string);
  measured : R
}.

Variable isspace : char -> bool.

(** One step of [process_video_job job_id]. *)
Definition worker_step (job_id : string) (o : Oracle) (p : pc) (s : State)
  : pc * State :=
  match p with
  | at_get_job =>
      match get_job job_id s with
      | None => (finished, s)
      | Some job => (at_mark_processing job, s)
      end
  | at_mark_processing job =>
      let '(_, s) :=
        update_job job_id
          [set_status PROCESSING; set_started_at (Some (now o));
           set_current_step "Extracting text from document"] s in
      (at_get_job_data job, s)
  | at_get_job_data job =>
      match get_job_data job_id s with
      | None => (finished, s)
      | Some job_data => (at_extract job (upload_path job_data), s)
      end
  | at_extract job upload_path =>
      match extracted o with
      | Raise e => (at_mark_failed e, s)
      | Ok text =>
          let words :=
            Speedreading.tokenize_text isspace
              (Speedreading.clean_text isspace text) in
          (at_report_words job text (Z.of_nat (length words)), s)
      end
  | at_report_words job text total_words =>
      let '(_, s) :=
        update_job job_id
          [set_total_words (Some total_words);
           set_current_step
             ("Found " +:+ pretty total_words
              +:+ " words, starting video generation");
           set_progress_percent 10] s in
      (at_mkdir job text, s)
  | at_mkdir job text =>
      match made_dir o with
      | Raise e => (at_mark_failed e, s)
      | Ok _ =>
          (at_report_generating job text,
           mkState (jobs s) (uploads s)
             (<[job_id := value_or (outputs s !! job_id) []]> (outputs s))
             (minted s) (tasks s))
      end
  | at_report_generating job text =>
      let '(_, s) :=
        update_job job_id
          [set_current_step "Generating video frames";
           set_progress_percent 20] s in
      (at_generate job text, s)
  | at_generate job text =>
      match generated o with
      | Raise e => (at_mark_failed e, s)
      | Ok output_files =>
          let output_filenames :=
            if float_truthy (chunk_duration (r_params job))
            then output_files
            else [path_stem (r_filename job) +:+ ".mp4"] in
          (at_measure output_filenames,
           mkState (jobs s) (uploads s)
             (<[job_id := output_filenames]> (outputs s))
             (minted s) (tasks s))
      end
  | at_measure output_filenames =>
      (at_mark_completed output_filenames (measured o), s)
  | at_mark_completed output_filenames total_duration =>
      let '(_, s) :=
        update_job job_id
          [set_status COMPLETED; set_completed_at (Some (now o));
           set_progress_percent 100; set_current_step "Complete";
           set_output_files output_filenames;
           set_video_duration_seconds
             (if Rlt_dec 0 total_duration then Some total_duration
              else None)] s in
      (finished, s)
  | at_mark_failed e =>
      let '(_, s) :=
        update_job job_id
          [set_status FAILED; set_completed_at (Some (now o));
           set_error_message (Some (exn_str e));
           set_current_step "Failed"] s in
      (finished, s)
  | finished => (finished, s)
  end.

(** What anything other than the worker of [job_id] may do to the record
    of [job_id]: leave it as it is, or delete it. *)
Definition interference (job_id : string) (s s' : State) : Prop :=
  jobs s' !! job_id = jobs s !! job_id \/ jobs s' !! job_id = None.

(** The runs of one job: the record is created by [initialize_job], one
    worker steps through [process_video_job], and the rest of the system
    interferes between any two steps. The first index lists the record of
    the job after every step, latest first. *)
Inductive run (job_id : string) : list (option JobData) -> pc -> State -> Prop :=
| run_submit filename upload_path params now s0 :
    let s := snd (initialize_job job_id filename upload_path params now s0) in
    run job_id [jobs s !! job_id] at_get_job s
| run_worker o trace p s :
    run job_id trace p s ->
    let ps := worker_step job_id o p s in
    run job_id (jobs (snd ps) !! job_id :: trace) (fst ps) (snd ps)
| run_env trace p s s' :
    run job_id trace p s ->
    interference job_id s s' ->
    run job_id (jobs s' !! job_id :: trace) p s'.

End Routes.

(** The lifecycle edges; a progress update keeps the status. *)
Definition transition (a b : JobStatus) : Prop :=
  a = b \/ (a = PENDING /\ b = PROCESSING)
  \/ (a = PROCESSING /\ (b = COMPLETED \/ b = FAILED)).

(** A step of the record from [older] to [newer]: a deleted record stays
    deleted, a stored one moves along a lifecycle edge or is deleted. *)
Definition record_step (older newer : option JobData) : Prop :=
  match older, newer with
  | _, None => True
  | None, Some _ => False
  | Some a, Some b => transition (status a) (status b)
  end.

(** Every two consecutive records of a trace (latest first) are a
    [record_step]. *)
Fixpoint transitions_ok (trace : list (option JobData)) : Prop :=
  match trace with
  | newer :: (older :: _) as rest => record_step older newer /\ transitions_ok rest
  | _ => True
  end.

Definition has_status (st : JobStatus) (r : option JobData) : Prop :=
  match r with
  | Some j => status j = st
  | None => False
  end.

(** Every COMPLETED record of the trace has a PROCESSING record before
    it (further down the list). *)
Fixpoint completed_after_processing (trace : list (option JobData)) : Prop :=
  match trace with
  | [] => True
  | r :: rest =>
      (has_status COMPLETED r -> Exists (has_status PROCESSING) rest)
      /\ completed_after_processing rest
  end.

Definition failed_is_explained (r : option JobData) : Prop :=
  match r with
  | Some j =>
      status j = FAILED -> error_message j <> None /\ completed_at j <> None
  | None => True
  end.

(** The status the stored record has while the worker stands at [p]:
    PENDING before the first update, PROCESSING from then on until the
    terminal update. *)
Definition pc_status_ok (p : pc) (r : option JobData) : Prop :=
  match r with
  | None => True
  | Some j =>
      match p with
      | at_get_job | at_mark_processing _ => status j = PENDING
      | finished => True
      | _ => status j = PROCESSING
      end
  end.

(** The oldest record of a trace. *)
Definition first_record (trace : list (option JobData)) : option JobData :=
  value_or (last trace) None.

(** [VideoParams()], all fields at their defaults, the empty JSON object
    and the empty storage directory. *)
Definition default_params : VideoParams :=
  mkVideoParams 200 600 None SMOOTH None 1920 1080 120 30
    "#1a1a2e" "#ffffff" "#ff0000" true true.

Definition empty_dict : ParamsDict :=
  mkParamsDict None None None None None None None None None None None None
    None None.

Definition empty_state : State := mkState ∅ ∅ ∅ 0 [].

(** Concrete library functions for plain ASCII file names, used to run
    the route on examples. *)
Definition ascii_lower (s : string) : string :=
  string_of_list_ascii
    (map (fun a => let n := nat_of_ascii a in
                   if (65 <=? n)%nat && (n <=? 90)%nat
                   then ascii_of_nat (n + 32) else a)
       (list_ascii_of_string s)).

Fixpoint from_last_dot (name : list ascii) : option (list ascii) :=
  match name with
  | [] => None
  | c :: rest =>
      match from_last_dot rest with
      | Some suffix => Some suffix
      | None => if Ascii.eqb c "." then Some name else None
      end
  end.

(** [Path(name).suffix] for a name without directory part: from the last
    dot, unless that dot starts or ends the name. *)
Definition plain_suffix (name : string) : string :=
  let l := list_ascii_of_string name in
  match from_last_dot l with
  | Some suffix =>
      if (length suffix =? length l)%nat || (length suffix =? 1)%nat
      then "" else string_of_list_ascii suffix
  | None => ""
  end.

Definition plain_stem (name : string) : string :=
  let l := list_ascii_of_string name in
  string_of_list_ascii
    (take (length l - String.length (plain_suffix name)) l).

(** *** Further definitions of the backend *)

(** [params.model_dump()]: every field present. *)
Definition model_dump (p : VideoParams) : ParamsDict :=
  mkParamsDict (Some (start_wpm p)) (Some (peak_wpm p)) (ramp_words p)
    (Some (RampStyle_value (ramp_style p))) (chunk_duration p)
    (Some (width p)) (Some (height p)) (Some (font_size p)) (Some (fps p))
    (Some (bg_color p)) (Some (text_color p)) (Some (orp_color p))
    (Some (show_wpm p)) (Some (preprocess p)).

(** The [Field] constraints of [VideoParams]. *)
Definition params_valid (p : VideoParams) : Prop :=
  (50 <= start_wpm p <= 1000)%Z
  /\ (100 <= peak_wpm p <= 2000)%Z
  /\ (forall r, ramp_words p = Some r -> (10 <= r <= 500)%Z)
  /\ (forall q, chunk_duration p = Some q -> (5 <= q)%Q /\ (q <= 300)%Q)
  /\ (640 <= width p <= 3840)%Z
  /\ (480 <= height p <= 2160)%Z
  /\ (24 <= font_size p <= 300)%Z
  /\ (15 <= fps p <= 60)%Z
  /\ is_hex_color (bg_color p) = true
  /\ is_hex_color (text_color p) = true
  /\ is_hex_color (orp_color p) = true.

(** Python slice [l[a:b]]: a negative bound counts from the end, and
    both bounds are clamped to the list. *)
Definition py_slice {A} (l : list A) (a b : Z) : list A :=
  let n := Z.of_nat (length l) in
  let clamp i := if (i <? 0)%Z then Z.max 0 (n + i) else Z.min i n in
  take (Z.to_nat (clamp b - clamp a)) (drop (Z.to_nat (clamp a)) l).

Section Listing.

(** [p.stat().st_mtime] of the record file of a job id, in units of the
    clock. *)
Variable mtime : string -> Z.

(** [job_files.sort(key=..., reverse=True)]: newest first, files with
    equal times staying in their order. *)
Fixpoint insert_newest (x : string) (sorted : list string) : list string :=
  match sorted with
  | [] => [x]
  | y :: rest =>
      if (mtime y <=? mtime x)%Z then x :: sorted
      else y :: insert_newest x rest
  end.

Definition sort_newest_first (job_files : list string) : list string :=
  fold_right insert_newest [] job_files.

(** [settings.JOBS_DIR.glob("*.json")], by job id, in the order the
    directory is listed. *)
Definition glob_jobs (s : State) : list string :=
  map fst (map_to_list (jobs s)).

(** The ids of the page [job_files[offset:offset + limit]]. *)
Definition page_ids (limit offset : Z) (s : State) : list string :=
  py_slice (sort_newest_first (glob_jobs s)) offset (offset + limit).

(** [JobManager.list_jobs] *)
Definition list_jobs (limit offset : Z) (s : State)
  : list JobResponse * Z :=
  let job_files := sort_newest_first (glob_jobs s) in
  let total := Z.of_nat (length job_files) in
  (omap (fun job_id => get_job job_id s) (page_ids limit offset s), total).

End Listing.

Section Whole.

Variable path_stem : string -> string.
Variable isspace : char -> bool.

(** [process_video_job] run without anything else touching the storage:
    [fuel] steps of the worker, the world answering every step with
    [o]. *)
Fixpoint worker_run (fuel : nat) (job_id : string) (o : Oracle) (p : pc)
    (s : State) : pc * State :=
  match fuel with
  | O => (p, s)
  | S fuel =>
      let '(p, s) := worker_step path_stem isspace job_id o p s in
      worker_run fuel job_id o p s
  end.

Definition process_video_job (job_id : string) (o : Oracle) (s : State)
  : State :=
  snd (worker_run 10 job_id o at_get_job s).

End Whole.

(** What the fields of a stored record have to do with each other. *)
Definition record_consistent (j : JobData) : Prop :=
  (0 <= progress_percent j <= 100)%Z
  /\ (status j = PENDING ->
      progress_percent j = 0%Z /\ started_at j = None)
  /\ (status j <> PENDING -> started_at j <> None)
  /\ (status j = PROCESSING -> (progress_percent j <= 20)%Z)
  /\ (status j = FAILED -> (progress_percent j <= 20)%Z)
  /\ (status j = COMPLETED ->
      progress_percent j = 100%Z /\ completed_at j <> None)
  /\ (status j <> COMPLETED -> output_files j = [])
  /\ (status j <> FAILED -> error_message j = None)
  /\ (status j = PENDING \/ status j = PROCESSING -> completed_at j = None).

(** The record while the worker stands at [p]. *)
Definition pc_record_ok (p : pc) (r : option JobData) : Prop :=
  match r with
  | None => True
  | Some j =>
      record_consistent j
      /\ match p with
         | at_get_job | at_mark_processing _ => status j = PENDING
         | at_get_job_data _ | at_extract _ _ | at_report_words _ _ _ =>
             status j = PROCESSING /\ progress_percent j = 0%Z
         | at_mkdir _ _ | at_report_generating _ _ =>
             status j = PROCESSING /\ progress_percent j = 10%Z
         | at_generate _ _ | at_measure _ | at_mark_completed _ _ =>
             status j = PROCESSING /\ progress_percent j = 20%Z
         | at_mark_failed _ => status j = PROCESSING
         | finished => True
         end
  end.

(** [progress_percent] does not decrease from one record of a trace
    (latest first) to the next. *)
Fixpoint progress_monotone (trace : list (option JobData)) : Prop :=
  match trace with
  | newer :: (older :: _) as rest =>
      match older, newer with
      | Some a, Some b => (progress_percent a <= progress_percent b)%Z
      | _, _ => True
      end
      /\ progress_monotone rest
  | _ => True
  end.

Definition record_ok (r : option JobData) : Prop :=
  match r with
  | Some j => record_consistent j
  | None => True
  end.

End Backend.

(** ** Chunked assembly *)

Module ChunkedAssembly.

Import Speedreading.

(** Modelled from the spec: [generate_chunked_videos], which
    [workers/background.py] imports from [speedreading] and calls when
    [chunk_duration] is set, is not in the source of [speedreading.py] at
    hand. The specification describes it as partitioning the sequence of
    word units into maximal contiguous runs whose cumulative duration does
    not exceed the chunk length, every unit being in exactly one chunk.
    [current] is the run being filled (reversed), [elapsed] its cumulative
    duration; a unit that alone exceeds the chunk length is a run of its
    own, since no word is split. *)
Fixpoint chunk_from (chunk_duration : R) (current : list WordFrame)
    (elapsed : R) (units : list WordFrame) : list (list WordFrame) :=
  match units with
  | [] => match current with [] => [] | _ => [rev current] end
  | u :: rest =>
      match current with
      | [] => chunk_from chunk_duration [u] (duration u) rest
      | _ =>
          if Rle_dec (elapsed + duration u) chunk_duration
          then chunk_from chunk_duration (u :: current)
                 (elapsed + duration u) rest
          else rev current :: chunk_from chunk_duration [u] (duration u) rest
      end
  end.

(** Modelled from the spec: the word sequences of the chunks emitted by
    chunked assembly, in emission order. *)
Definition chunk_word_frames (chunk_duration : R) (units : list WordFrame)
  : list (list WordFrame) :=
  chunk_from chunk_duration [] 0 units.

Definition total_duration (chunk : list WordFrame) : R :=
  fold_right Rplus 0%R (map duration chunk).

End ChunkedAssembly.

(** ** The pacing rules as the specification words them *)

Module Worded.

Local Open Scope Z_scope.

(** [round(0.1 * total_words)], Python rounding a half to the even
    neighbour. *)
Definition round_tenth (total_words : Z) : Z :=
  let q := total_words / 10 in
  let r := total_words mod 10 in
  if r <? 5 then q
  else if 5 <? r then q + 1
  else if Z.even q then q else q + 1.

(** "If ramp_words is absent, default to max(20, round(0.1 * total_words))" *)
Definition default_ramp_words (total_words : Z) : Z :=
  Z.max 20 (round_tenth total_words).

(** "divide the ramp into 6 equal word-count steps": the number of the
    sixth of the ramp that holds index [i]. *)
Definition step_index (ramp_words i : Z) : Z := (6 * i) / ramp_words.

(** "wpm = start + step_index * (peak - start) / 6, capped at peak, for
    i < ramp_words; else wpm = peak" *)
Definition stepped_wpm (start_wpm peak_wpm : R) (ramp_words i : Z) : R :=
  if i <? ramp_words then
    Rmin (start_wpm + IZR (step_index ramp_words i)
                      * (peak_wpm - start_wpm) / 6)%R peak_wpm
  else peak_wpm.

End Worded.

(** * Properties *)

(** ** Tokens and ORP positions *)

Section TextFacts.

Import Speedreading.
Local Open Scope Z_scope.

Variable isalnum : char -> bool.
Variable isspace : char -> bool.

Lemma rev_not_nil {A} (l : list A) : l <> [] -> rev l <> [].
Proof.
  destruct l as [|a l]; [congruence|].
  intros _ H. apply (f_equal (@length A)) in H.
  rewrite length_rev in H. discriminate.
Qed.

Lemma split_from_not_nil text : forall cur w,
  In w (split_from isspace cur text) -> w <> [].
Proof.
  induction text as [|c rest IH]; intros cur w; cbn [split_from].
  - destruct cur as [|a cur]; cbn [In]; [tauto|].
    intros [<-|[]]. apply rev_not_nil. discriminate.
  - destruct (isspace c).
    + destruct cur as [|a cur]; cbn [In].
      * apply IH.
      * intros [<-|H]; [apply rev_not_nil; discriminate | eapply IH; eauto].
    + apply IH.
Qed.

Lemma tokenize_text_not_nil text w :
  In w (tokenize_text isspace text) -> w <> [].
Proof.
  unfold tokenize_text, split. intros H.
  apply filter_In in H as [H _]. eapply split_from_not_nil; eauto.
Qed.

Lemma leading_punct_nonneg w : 0 <= leading_punct isalnum w.
Proof. induction w as [|c w IH]; simpl; [lia|]. destruct (isalnum c); lia. Qed.

Lemma leading_punct_clean_word w :
  leading_punct isalnum w + Z.of_nat (length (clean_word isalnum w))
  <= Z.of_nat (length w).
Proof.
  induction w as [|c w IH]; simpl; [lia|].
  destruct (isalnum c) eqn:E.
  - pose proof (filter_length_le isalnum (c :: w)) as H.
    simpl in H. rewrite E in H. simpl in *.
    unfold clean_word in *. lia.
  - unfold clean_word in *. lia.
Qed.

Lemma leading_punct_all w :
  clean_word isalnum w = [] -> leading_punct isalnum w = Z.of_nat (length w).
Proof.
  induction w as [|c w IH]; simpl; [reflexivity|].
  destruct (isalnum c); [discriminate|].
  intros H. rewrite (IH H). lia.
Qed.

Lemma calculate_orp_range cw :
  cw <> [] -> 0 <= calculate_orp cw <= Z.of_nat (length cw) - 1.
Proof.
  intros H. destruct cw as [|c cw]; [congruence|].
  unfold calculate_orp.
  repeat match goal with |- context [?a <=? ?b] => destruct (Z.leb_spec a b) end;
    simpl length in *; lia.
Qed.

Lemma word_frame_of_orp_index w wpm :
  let wf := word_frame_of isalnum w wpm in
  0 <= orp_index wf <= Z.of_nat (length w)
  /\ (clean_word isalnum w <> [] -> orp_index wf <= Z.of_nat (length w) - 1)
  /\ (clean_word isalnum w = [] -> orp_index wf = Z.of_nat (length w)).
Proof.
  simpl.
  pose proof (leading_punct_nonneg w) as Hl.
  pose proof (leading_punct_clean_word w) as Hc.
  destruct (clean_word isalnum w) as [|c cw] eqn:E.
  - pose proof (leading_punct_all w E). repeat split; try lia. congruence.
  - pose proof (calculate_orp_range (c :: cw) ltac:(discriminate)) as Ho.
    repeat split; try lia. discriminate.
Qed.

End TextFacts.

Section OrpClaim.

Import Speedreading.
Local Open Scope Z_scope.

(** C1 (as the code has it). For every token of [tokenize_text], the
    [WordFrame] the pipeline builds carries the table index of the
    alphanumeric core plus the number of leading non-alphanumeric
    characters, without clamping: the token is not empty, the stored
    [orp_index] lies in [0, len(token)], it is at most [len(token) - 1]
    when the token has an alphanumeric character and equal to [len(token)]
    when it has none; the position [render_word_frame] derives from it,
    [min(orp_index, len(token) - 1)], lies in [0, len(token) - 1]. *)
Theorem word_frames_orp_index
    (isalnum isspace : char -> bool) (text : str) (wpm_schedule : list R)
    (wf : WordFrame) :
  In wf (word_frames isalnum (tokenize_text isspace text) wpm_schedule) ->
  let n := Z.of_nat (length (word wf)) in
  1 <= n
  /\ 0 <= orp_index wf <= n
  /\ (clean_word isalnum (word wf) <> [] -> orp_index wf <= n - 1)
  /\ (clean_word isalnum (word wf) = [] -> orp_index wf = n)
  /\ 0 <= orp_idx wf <= n - 1.
Proof.
  unfold word_frames. intros H.
  apply in_map_iff in H as [[w wpm] [<- H]].
  assert (Hw : In w (tokenize_text isspace text)).
  { apply list_elem_of_In in H. apply list_elem_of_In.
    eapply elem_of_zip_l in H. exact H. }
  apply tokenize_text_not_nil in Hw.
  pose proof (word_frame_of_orp_index isalnum w wpm) as (Hr & Ha & Hn).
  cbn [fst snd] in *. unfold orp_idx.
  change (word (word_frame_of isalnum w wpm)) with w.
  cbv zeta.
  assert (1 <= Z.of_nat (length w)) by (destruct w; [congruence | simpl; lia]).
  repeat split; try tauto; try lia.
Qed.

Lemma word_frames_orp_index_witness :
  let wf := word_frame_of ascii_isalnum (str_of "...wait") 200 in
  let frames :=
    word_frames ascii_isalnum
      (tokenize_text ascii_isspace (str_of "Hello, ...wait"))
      [200%R; 200%R] in
  In wf frames
  /\ orp_index wf = 4
  /\ 0 <= orp_idx wf <= Z.of_nat (length (word wf)) - 1.
Proof.
  intros wf frames.
  assert (H : In wf frames) by (right; left; reflexivity).
  split; [exact H|]. split; [reflexivity|].
  apply (word_frames_orp_index ascii_isalnum ascii_isspace _ _ _ H).
Defined.

(** Scenario B of the specification: ["Hello,"] has the core ["Hello"],
    table index 1, no leading punctuation. *)
Example orp_index_hello :
  orp_index (word_frame_of ascii_isalnum (str_of "Hello,") 200) = 1.
Proof. reflexivity. Qed.

(** C1, counterexample: the token ["..."] has no alphanumeric character;
    its frame is built with [orp_index = 3], past the last character. *)
Lemma word_frame_orp_index_past_end :
  exists wf,
    In wf (word_frames ascii_isalnum
             (tokenize_text ascii_isspace (str_of "Wait ...")) [200%R; 200%R])
    /\ word wf = str_of "..."
    /\ orp_index wf = 3
    /\ ~ (0 <= orp_index wf <= Z.of_nat (length (word wf)) - 1).
Proof.
  exists (word_frame_of ascii_isalnum (str_of "...") 200).
  split; [right; left; reflexivity|].
  split; [reflexivity|]. split; [reflexivity|].
  simpl. lia.
Qed.

End OrpClaim.

(** ** Pacing schedule *)

Section ScheduleFacts.

Import Speedreading.
Local Open Scope Z_scope.

Lemma range_length n : length (range n) = Z.to_nat n.
Proof. unfold range. now rewrite length_map, length_seq. Qed.

Lemma range_lookup n i :
  (i < Z.to_nat n)%nat -> range n !! i = Some (Z.of_nat i).
Proof.
  intros H. unfold range. rewrite list_lookup_fmap.
  rewrite lookup_seq_lt by exact H. reflexivity.
Qed.

Lemma map_range_lookup_lt {A} (f : Z -> A) n i :
  (i < Z.to_nat n)%nat -> map f (range n) !! i = Some (f (Z.of_nat i)).
Proof.
  intros H. change (map f (range n)) with (f <$> range n).
  now rewrite list_lookup_fmap, (range_lookup _ _ H).
Qed.

Lemma map_range_lookup {A} (f : Z -> A) n i a :
  map f (range n) !! i = Some a ->
  (i < Z.to_nat n)%nat /\ a = f (Z.of_nat i).
Proof.
  intros H. assert (Hi : (i < Z.to_nat n)%nat).
  { apply lookup_lt_Some in H. now rewrite length_map, range_length in H. }
  split; [exact Hi|].
  change (map f (range n)) with (f <$> range n) in H.
  rewrite list_lookup_fmap, (range_lookup _ _ Hi) in H.
  simpl in H. congruence.
Qed.

Lemma create_wpm_schedule_known start_wpm peak_wpm total_words ramp_words
    ramp_style :
  2 <= total_words -> known_style ramp_style ->
  exists f,
    (ramp_style = "smooth"%string /\ f = smooth_wpm
     \/ ramp_style = "linear"%string /\ f = linear_wpm
     \/ ramp_style = "stepped"%string /\ f = stepped_wpm)
    /\ create_wpm_schedule start_wpm peak_wpm total_words ramp_words ramp_style
       = Ok (map (f start_wpm peak_wpm
                    (resolve_ramp_words total_words ramp_words))
               (range total_words)).
Proof.
  intros Ht Hs. unfold create_wpm_schedule.
  destruct (Z.leb_spec total_words 1); [lia|].
  destruct Hs as [-> | [-> | ->]]; simpl;
    [exists smooth_wpm | exists linear_wpm | exists stepped_wpm]; tauto.
Qed.





Lemma stepped_wpm_eq start_wpm peak_wpm ramp_words i :
  stepped_wpm start_wpm peak_wpm ramp_words i =
  if i <? ramp_words then
    (start_wpm
     + (peak_wpm - start_wpm) / 6
       * IZR (Z.min (i / Z.max 1 (ramp_words / 6)) 6))%R
  else peak_wpm.
Proof. reflexivity. Qed.


End ScheduleFacts.

Section ScheduleClaims.

Import Speedreading.
Local Open Scope Z_scope.



(** Scenario A of the specification: 200 to 600 wpm over 20 of 100 words,
    linear. *)
Example linear_schedule_scenario :
  exists schedule,
    create_wpm_schedule 200 600 100 (Some 20) "linear" = Ok schedule
    /\ schedule !! 0%nat = Some 200%R
    /\ schedule !! 10%nat = Some 400%R
    /\ schedule !! 20%nat = Some 600%R
    /\ schedule !! 99%nat = Some 600%R.
Proof.
  eexists. split; [unfold create_wpm_schedule; reflexivity|].
  rewrite !map_range_lookup_lt by (vm_compute; lia).
  change (resolve_ramp_words 100 (Some 20)) with 20.
  unfold linear_wpm.
  change (Z.of_nat 0 <? 20) with true. change (Z.of_nat 10 <? 20) with true.
  change (Z.of_nat 20 <? 20) with false. change (Z.of_nat 99 <? 20) with false.
  change (Z.of_nat 0) with 0. change (Z.of_nat 10) with 10.
  cbv zeta. repeat split; f_equal; lra.
Qed.


Lemma create_wpm_schedule_linear start_wpm peak_wpm total_words ramp_words :
  2 <= total_words ->
  create_wpm_schedule start_wpm peak_wpm total_words ramp_words "linear"
  = Ok (map (linear_wpm start_wpm peak_wpm
               (resolve_ramp_words total_words ramp_words))
          (range total_words)).
Proof.
  intros H. unfold create_wpm_schedule.
  destruct (Z.leb_spec total_words 1); [lia | reflexivity].
Qed.


Lemma resolve_ramp_words_idem total_words ramp_words :
  resolve_ramp_words total_words
    (Some (resolve_ramp_words total_words ramp_words))
  = resolve_ramp_words total_words ramp_words.
Proof. unfold resolve_ramp_words. lia. Qed.

Lemma create_wpm_schedule_ext start_wpm peak_wpm total_words rw1 rw2
    ramp_style :
  resolve_ramp_words total_words rw1 = resolve_ramp_words total_words rw2 ->
  create_wpm_schedule start_wpm peak_wpm total_words rw1 ramp_style
  = create_wpm_schedule start_wpm peak_wpm total_words rw2 ramp_style.
Proof. intros H. unfold create_wpm_schedule. now rewrite H. Qed.

Lemma create_wpm_schedule_resolved start_wpm peak_wpm total_words ramp_words
    ramp_style :
  create_wpm_schedule start_wpm peak_wpm total_words ramp_words ramp_style
  = create_wpm_schedule start_wpm peak_wpm total_words
      (Some (resolve_ramp_words total_words ramp_words)) ramp_style.
Proof.
  apply create_wpm_schedule_ext. symmetry. apply resolve_ramp_words_idem.
Qed.

Lemma int_tenth_floor total_words :
  0 <= total_words -> int_tenth total_words = total_words / 10.
Proof. intros H. unfold int_tenth. apply Z.quot_div_nonneg; lia. Qed.

(** C6 (as the code has it). For [total_words >= 2], an absent
    [ramp_words] is [max(20, total_words // 10)], the tenth being
    truncated, not rounded; a given or defaulted [ramp_words] above
    [total_words] is replaced by [total_words]; the schedule is the one
    of the resulting value. Up to 205 words the truncated and the rounded
    default are both 20. *)
Theorem ramp_words_default_and_clamp
    (start_wpm peak_wpm : R) (total_words : Z) (ramp_words : option Z)
    (ramp_style : string) :
  2 <= total_words ->
  resolve_ramp_words total_words None
  = Z.min (Z.max 20 (total_words / 10)) total_words
  /\ create_wpm_schedule start_wpm peak_wpm total_words None ramp_style
     = create_wpm_schedule start_wpm peak_wpm total_words
         (Some (Z.max 20 (total_words / 10))) ramp_style
  /\ (forall r, total_words < r ->
        create_wpm_schedule start_wpm peak_wpm total_words (Some r) ramp_style
        = create_wpm_schedule start_wpm peak_wpm total_words
            (Some total_words) ramp_style)
  /\ resolve_ramp_words total_words ramp_words <= total_words
  /\ create_wpm_schedule start_wpm peak_wpm total_words ramp_words ramp_style
     = create_wpm_schedule start_wpm peak_wpm total_words
         (Some (resolve_ramp_words total_words ramp_words)) ramp_style
  /\ (total_words <= 205 ->
      resolve_ramp_words total_words None
      = Z.min (Worded.default_ramp_words total_words) total_words).
Proof.
  intros Ht.
  assert (Hq : int_tenth total_words = total_words / 10)
    by (apply int_tenth_floor; lia).
  repeat split.
  - unfold resolve_ramp_words. now rewrite Hq.
  - apply create_wpm_schedule_ext.
    unfold resolve_ramp_words. now rewrite Hq.
  - intros r Hr. apply create_wpm_schedule_ext.
    unfold resolve_ramp_words. lia.
  - unfold resolve_ramp_words. lia.
  - apply create_wpm_schedule_resolved.
  - intros H205. unfold resolve_ramp_words, Worded.default_ramp_words,
      Worded.round_tenth. rewrite Hq.
    pose proof (Z.div_mod total_words 10 ltac:(lia)) as Hdm.
    pose proof (Z.mod_pos_bound total_words 10 ltac:(lia)) as Hm.
    set (q := total_words / 10) in *. set (r := total_words mod 10) in *.
    destruct (Z.ltb_spec r 5); [reflexivity|].
    destruct (Z.ltb_spec 5 r); [f_equal; lia|].
    assert (r = 5) by lia.
    destruct (Z.even q) eqn:Ev; [reflexivity|].
    assert (q <> 20) by (intros ->; discriminate).
    f_equal; lia.
Qed.

Lemma ramp_words_default_and_clamp_witness :
  2 <= 100
  /\ resolve_ramp_words 100 None = Z.min (Z.max 20 (100 / 10)) 100
  /\ resolve_ramp_words 100 (Some 500) <= 100.
Proof.
  assert (H : 2 <= 100) by lia.
  split; [exact H|].
  pose proof (ramp_words_default_and_clamp 200 600 100 (Some 500) "linear" H)
    as (H1 & _ & _ & H4 & _).
  split; [exact H1 | exact H4].
Defined.

(** C6, counterexample: 206 words. The code ramps over
    [max(20, int(20.6)) = 20] words, the rounded default is 21, and the
    two schedules differ at index 20. *)
Lemma default_ramp_words_truncates :
  Worded.default_ramp_words 206 = 21
  /\ resolve_ramp_words 206 None = 20
  /\ create_wpm_schedule 200 600 206 None "linear"
     <> create_wpm_schedule 200 600 206
          (Some (Worded.default_ramp_words 206)) "linear".
Proof.
  split; [reflexivity|]. split; [reflexivity|].
  rewrite !create_wpm_schedule_linear by lia.
  intros H.
  apply (f_equal (fun r => match r with
                           | Ok l => l !! 20%nat
                           | Raise _ => None
                           end)) in H.
  cbv beta iota in H.
  rewrite !map_range_lookup_lt in H by (vm_compute; lia).
  apply (inj Some) in H.
  change (resolve_ramp_words 206 None) with 20 in H.
  change (resolve_ramp_words 206 (Some (Worded.default_ramp_words 206)))
    with 21 in H.
  unfold linear_wpm in H.
  change (Z.of_nat 20 <? 20) with false in H.
  change (Z.of_nat 20 <? 21) with true in H.
  change (Z.of_nat 20) with 20 in H.
  cbv zeta in H. lra.
Qed.





End ScheduleClaims.

(** ** Frame layout *)

Section RenderFacts.

Import Speedreading.
Local Open Scope Z_scope.

Variable char_width : char -> Z.
Variable reference_top : Z.
Variable reference_bottom : Z.

Lemma py_index_in_range {A} (l : list A) (i : Z) :
  0 <= i < Z.of_nat (length l) -> py_index l i = l !! Z.to_nat i.
Proof.
  intros [H0 H1]. unfold py_index.
  destruct (Z.leb_spec 0 i); [|lia].
  destruct (Z.ltb_spec i (Z.of_nat (length l))); [reflexivity | lia].
Qed.

Lemma py_index_nat {A} (l : list A) (k : nat) (x : A) :
  l !! k = Some x -> py_index l (Z.of_nat k) = Some x.
Proof.
  intros H. pose proof (lookup_lt_Some _ _ _ H).
  rewrite py_index_in_range by lia. now rewrite Nat2Z.id.
Qed.

Lemma py_slice_to_nonneg {A} (l : list A) (i : Z) :
  0 <= i -> py_slice_to l i = take (Z.to_nat i) l.
Proof.
  intros H. unfold py_slice_to. destruct (Z.leb_spec 0 i); [reflexivity | lia].
Qed.

Lemma drop_lookup_cons {A} (l : list A) (k : nat) (x : A) :
  l !! k = Some x -> drop k l = x :: drop (S k) l.
Proof.
  revert k. induction l as [|y l IH]; intros [|k] H; simpl in *;
    try discriminate.
  - now injection H as ->.
  - now apply IH.
Qed.

(** The drawing loop succeeds on the characters of a word from position
    [k] on, and puts character [k + j] at [x] plus the widths of the
    characters [k .. k + j - 1]. *)
Lemma draw_chars_ok widths idx y_base text_color orp_color :
  forall (cs : str) (k : nat) (x : Z),
    (k + length cs <= length widths)%nat ->
    exists cmds,
      draw_chars widths idx y_base text_color orp_color x
        (zip (map Z.of_nat (seq k (length cs))) cs) = Ok cmds
      /\ length cmds = length cs
      /\ forall j c,
           cs !! j = Some c ->
           cmds !! j
           = Some (DrawText (x + sumZ (take j (drop k widths))) y_base c
                     (if Z.of_nat (k + j) =? idx then orp_color
                      else text_color)).
Proof.
  induction cs as [|c cs IH]; intros k x Hk.
  - exists []. repeat split. intros j c H. destruct j; discriminate.
  - simpl in Hk.
    destruct (lookup_lt_is_Some_2 widths k ltac:(lia)) as [w Hw].
    destruct (IH (S k) (x + w) ltac:(lia)) as (cmds & Hd & Hl & Hj).
    exists (DrawText x y_base c
              (if Z.of_nat k =? idx then orp_color else text_color) :: cmds).
    split; [|split].
    + cbn [length seq map zip zip_with draw_chars].
      rewrite (py_index_nat _ _ _ Hw).
      cbn [zip] in Hd. rewrite Hd. reflexivity.
    + simpl. now rewrite Hl.
    + intros [|j] c' Hc; simpl in Hc.
      * injection Hc as <-. simpl. rewrite Z.add_0_r, Nat.add_0_r.
        reflexivity.
      * rewrite (drop_lookup_cons _ _ _ Hw). simpl.
        rewrite (Hj j c' Hc).
        replace (S k + j)%nat with (k + S j)%nat by lia.
        do 2 f_equal. lia.
Qed.

(** The layout step succeeds whenever the word is not empty and the
    stored [orp_index] is not negative. *)
Lemma layout_ok (wf : WordFrame) (width : Z) :
  word wf <> [] -> 0 <= orp_index wf ->
  let idx := Z.min (orp_index wf) (Z.of_nat (length (word wf)) - 1) in
  let widths := map char_width (word wf) in
  exists c w,
    word wf !! Z.to_nat idx = Some c
    /\ w = char_width c
    /\ widths !! Z.to_nat idx = Some w
    /\ 0 <= idx < Z.of_nat (length (word wf))
    /\ layout char_width wf width
       = Ok (idx, widths,
             width / 2 - sumZ (take (Z.to_nat idx) widths) - w / 2).
Proof.
  intros Hne H0 idx widths.
  assert (Hlen : 1 <= Z.of_nat (length (word wf)))
    by (destruct (word wf); [congruence | simpl; lia]).
  assert (Hidx : 0 <= idx < Z.of_nat (length (word wf)))
    by (unfold idx; lia).
  destruct (lookup_lt_is_Some_2 (word wf) (Z.to_nat idx) ltac:(lia))
    as [c Hc].
  exists c, (char_width c).
  assert (Hw : widths !! Z.to_nat idx = Some (char_width c)).
  { unfold widths. change (map char_width (word wf))
      with (char_width <$> word wf).
    now rewrite list_lookup_fmap, Hc. }
  repeat split; try assumption; try lia.
  unfold layout. fold idx. fold widths.
  rewrite py_index_in_range
    by (unfold widths; rewrite length_map; exact Hidx).
  rewrite Hw, py_slice_to_nonneg by lia.
  destruct widths eqn:E; [discriminate|]. reflexivity.
Qed.

(** What [render_word_frame] returns on a non-empty word with a
    non-negative [orp_index]: the two marks, then one [DrawText] per
    character, left to right from the start position of [layout_ok], the
    character at the clamped position in the highlight colour. *)
Lemma render_word_frame_ok (wf : WordFrame) (width height : Z)
    (bg_color text_color orp_color : string) :
  word wf <> [] -> 0 <= orp_index wf ->
  let idx := Z.min (orp_index wf) (Z.of_nat (length (word wf)) - 1) in
  let widths := map char_width (word wf) in
  exists c w marks chars y_base,
    word wf !! Z.to_nat idx = Some c
    /\ w = char_width c
    /\ render_word_frame char_width reference_top reference_bottom wf
         width height bg_color text_color orp_color
       = Ok (mkFrame width height bg_color (marks ++ chars))
    /\ length marks = 2%nat
    /\ length chars = length (word wf)
    /\ forall j cj,
         word wf !! j = Some cj ->
         chars !! j
         = Some (DrawText
                   (width / 2 - sumZ (take (Z.to_nat idx) widths) - w / 2
                    + sumZ (take j widths))
                   y_base cj
                   (if Z.of_nat j =? idx then orp_color else text_color)).
Proof.
  intros Hne H0 idx widths.
  destruct (layout_ok wf width Hne H0) as (c & w & Hc & Hw & _ & _ & Hlay).
  fold idx widths in Hc, Hlay.
  set (y_base := (height - (reference_bottom - reference_top)) / 2
                 - reference_top).
  destruct (draw_chars_ok widths idx y_base text_color orp_color (word wf)
              0%nat (width / 2 - sumZ (take (Z.to_nat idx) widths) - w / 2))
    as (chars & Hd & Hl & Hj).
  { unfold widths. rewrite length_map. lia. }
  exists c, w. eexists. exists chars, y_base.
  split; [exact Hc|]. split; [exact Hw|].
  split; [|split; [|split; [exact Hl|]]].
  - unfold render_word_frame. rewrite Hlay. cbn [bind].
    unfold enumerate, range. rewrite Nat2Z.id.
    fold y_base. rewrite Hd. cbn [bind]. reflexivity.
  - reflexivity.
  - intros j cj Hcj. rewrite (Hj j cj Hcj). reflexivity.
Qed.

(** C10. For every [WordFrame] with a non-empty word and a non-negative
    [orp_index], [render_word_frame] returns a frame: the highlight
    position it uses is [min(orp_index, len(word) - 1)], which is an index
    of the word, so that the width lookup at that position and the width
    lookups of the drawing loop all succeed; every character is drawn
    once and exactly the one at that position takes the highlight
    colour. *)
Theorem render_word_frame_total (wf : WordFrame) (width height : Z)
    (bg_color text_color orp_color : string) :
  word wf <> [] -> 0 <= orp_index wf ->
  let idx := Z.min (orp_index wf) (Z.of_nat (length (word wf)) - 1) in
  0 <= idx < Z.of_nat (length (word wf))
  /\ is_Some (py_index (map char_width (word wf)) idx)
  /\ exists frame marks chars,
       render_word_frame char_width reference_top reference_bottom wf
         width height bg_color text_color orp_color = Ok frame
       /\ drawn frame = marks ++ chars
       /\ length chars = length (word wf)
       /\ forall j cj,
            word wf !! j = Some cj ->
            exists x y,
              chars !! j
              = Some (DrawText x y cj
                        (if Z.of_nat j =? idx then orp_color
                         else text_color)).
Proof.
  intros Hne H0 idx.
  destruct (layout_ok wf width Hne H0) as (c0 & w0 & _ & _ & Hw0 & Hidx & _).
  destruct (render_word_frame_ok wf width height bg_color text_color
              orp_color Hne H0)
    as (c & w & marks & chars & y_base & Hc & Hw & Hr & Hm & Hl & Hj).
  fold idx in Hidx, Hw0, Hj.
  split; [exact Hidx|]. split.
  - rewrite py_index_in_range by (rewrite length_map; exact Hidx).
    rewrite Hw0. eauto.
  - eexists. exists marks, chars. split; [exact Hr|].
    split; [reflexivity|]. split; [exact Hl|].
    intros j cj Hcj. eexists. eexists. apply (Hj j cj Hcj).
Qed.

(** C8. For every non-empty word, every [orp_index] that is an index of
    the word and every assignment of advance widths, the start x computed
    by the frame composer is the canvas centre [width // 2] minus the
    summed widths of the characters before the ORP character minus half
    ([// 2]) of the ORP character's own width; the ORP character is
    therefore drawn at [width // 2 - w // 2], so that its left edge plus
    half its width is the canvas centre, and its exact centre is the
    canvas centre when its width is even and half a pixel to the right of
    it when its width is odd. *)
Theorem render_word_frame_orp_centered (wf : WordFrame) (width height : Z)
    (bg_color text_color orp_color : string) :
  word wf <> [] ->
  0 <= orp_index wf < Z.of_nat (length (word wf)) ->
  let widths := map char_width (word wf) in
  let k := Z.to_nat (orp_index wf) in
  exists c w start_x,
    word wf !! k = Some c
    /\ w = char_width c
    /\ layout char_width wf width = Ok (orp_index wf, widths, start_x)
    /\ start_x = width / 2 - sumZ (take k widths) - w / 2
    /\ exists frame marks chars x_orp y,
         render_word_frame char_width reference_top reference_bottom wf
           width height bg_color text_color orp_color = Ok frame
         /\ drawn frame = marks ++ chars
         /\ chars !! k = Some (DrawText x_orp y c orp_color)
         /\ x_orp = start_x + sumZ (take k widths)
         /\ x_orp + w / 2 = width / 2
         /\ 2 * x_orp + w - 2 * (width / 2) = w mod 2.
Proof.
  intros Hne [H0 H1] widths k.
  assert (Hmin : Z.min (orp_index wf) (Z.of_nat (length (word wf)) - 1)
                 = orp_index wf) by lia.
  destruct (layout_ok wf width Hne H0) as (c0 & w0 & Hc0 & Hw0 & _ & _ & Hlay).
  destruct (render_word_frame_ok wf width height bg_color text_color
              orp_color Hne H0)
    as (c & w & marks & chars & y_base & Hc & Hw & Hr & Hm & Hl & Hj).
  rewrite Hmin in *. fold k widths in Hc, Hc0, Hlay, Hj.
  assert (c0 = c) by congruence. subst c0 w0 w.
  exists c, (char_width c). eexists.
  split; [exact Hc|]. split; [reflexivity|].
  split; [exact Hlay|]. split; [reflexivity|].
  eexists. exists marks, chars. eexists. exists y_base.
  split; [exact Hr|]. split; [reflexivity|].
  split.
  - assert (Hk : Z.of_nat k = orp_index wf) by (unfold k; lia).
    rewrite (Hj k c Hc), Hk, Z.eqb_refl. reflexivity.
  - split; [reflexivity|].
    pose proof (Z.div_mod (char_width c) 2 ltac:(lia)). split; lia.
Qed.

End RenderFacts.

Lemma render_word_frame_total_witness :
  let wf := Speedreading.mkWordFrame (str_of "...") 3 0.3 in
  let width_of := fun c : char => if (c =? 105)%N then 28%Z else 72%Z in
  Speedreading.word wf <> []
  /\ (0 <= Speedreading.orp_index wf)%Z
  /\ (0 <= Z.min 3 2 < 3)%Z
  /\ exists frame,
       Speedreading.render_word_frame width_of 20 130 wf 1920 1080
         "#1a1a2e" "#ffffff" "#ff0000" = Ok frame.
Proof.
  intros wf width_of.
  assert (H1 : Speedreading.word wf <> []) by discriminate.
  assert (H2 : (0 <= Speedreading.orp_index wf)%Z) by (simpl; lia).
  split; [exact H1|]. split; [exact H2|].
  destruct (render_word_frame_total width_of 20 130 wf 1920 1080
              "#1a1a2e" "#ffffff" "#ff0000" H1 H2)
    as (Hr & _ & frame & _ & _ & Hf & _).
  split; [exact Hr|]. exists frame. exact Hf.
Defined.

Lemma render_word_frame_orp_centered_witness :
  let wf := Speedreading.mkWordFrame (str_of "Hello,") 1 0.3 in
  let width_of := fun c : char => if (c =? 105)%N then 28%Z else 72%Z in
  Speedreading.word wf <> []
  /\ (0 <= Speedreading.orp_index wf
      < Z.of_nat (length (Speedreading.word wf)))%Z
  /\ exists start_x,
       Speedreading.layout width_of wf 1920
       = Ok (1%Z, map width_of (str_of "Hello,"), start_x)
       /\ start_x = (1920 / 2 - 72 - 72 / 2)%Z.
Proof.
  intros wf width_of.
  assert (H1 : Speedreading.word wf <> []) by discriminate.
  assert (H2 : (0 <= Speedreading.orp_index wf
                < Z.of_nat (length (Speedreading.word wf)))%Z)
    by (simpl; lia).
  split; [exact H1|]. split; [exact H2|].
  destruct (render_word_frame_orp_centered width_of 20 130 wf 1920 1080
              "#1a1a2e" "#ffffff" "#ff0000" H1 H2)
    as (c & w & start_x & Hc & Hw & Hlay & Hsx & _).
  exists start_x. split; [exact Hlay|].
  injection Hc as <-. subst w. exact Hsx.
Defined.

(** ** Chunked assembly *)

Section ChunkFacts.

Import Speedreading ChunkedAssembly.

Variable chunk_duration : R.

Lemma chunk_from_concat units : forall current elapsed,
  concat (chunk_from chunk_duration current elapsed units)
  = rev current ++ units.
Proof.
  induction units as [|u rest IH]; intros current elapsed;
    cbn [chunk_from].
  - destruct current; cbn [concat]; now rewrite ?app_nil_r.
  - destruct current as [|v current].
    + rewrite IH. reflexivity.
    + destruct (Rle_dec (elapsed + duration u) chunk_duration).
      * rewrite IH. cbn [rev]. now rewrite <- app_assoc.
      * cbn [concat]. rewrite IH. reflexivity.
Qed.

Lemma chunk_from_not_nil units : forall current elapsed,
  Forall (fun chunk => chunk <> []) (chunk_from chunk_duration current elapsed units).
Proof.
  assert (Hrev : forall (v : WordFrame) l, rev (v :: l) <> []).
  { intros v l H. apply (f_equal (@length _)) in H.
    rewrite length_rev in H. discriminate. }
  induction units as [|u rest IH]; intros current elapsed;
    cbn [chunk_from].
  - destruct current; constructor; [apply Hrev | constructor].
  - destruct current as [|v current]; [apply IH|].
    destruct (Rle_dec (elapsed + duration u) chunk_duration);
      [apply IH|].
    constructor; [apply Hrev | apply IH].
Qed.

Lemma total_duration_snoc chunk u :
  total_duration (chunk ++ [u]) = (total_duration chunk + duration u)%R.
Proof.
  unfold total_duration. induction chunk as [|v chunk IH]; simpl.
  - lra.
  - rewrite IH. lra.
Qed.

(** Every chunk stays within the chunk length, unless it is a single unit
    that is longer than the chunk length by itself. *)
Lemma chunk_from_within units : forall current elapsed,
  (current <> [] ->
   elapsed = total_duration (rev current)
   /\ ((elapsed <= chunk_duration)%R \/ length current = 1%nat)) ->
  Forall (fun chunk => (total_duration chunk <= chunk_duration)%R
                       \/ length chunk = 1%nat)
    (chunk_from chunk_duration current elapsed units).
Proof.
  assert (Hone : forall u : WordFrame,
            [u] <> [] ->
            duration u = total_duration (rev [u])
            /\ ((duration u <= chunk_duration)%R \/ length [u] = 1%nat)).
  { intros u _. split; [unfold total_duration; simpl; lra | now right]. }
  induction units as [|u rest IH]; intros current elapsed Hinv;
    cbn [chunk_from].
  - destruct current as [|v current]; constructor; [|constructor].
    destruct Hinv as [-> [H | H]]; [discriminate | now left |].
    right. now rewrite length_rev.
  - destruct current as [|v current]; [apply IH, Hone|].
    destruct Hinv as [-> Hb]; [discriminate|].
    destruct (Rle_dec _ chunk_duration) as [Hle | Hgt].
    + apply IH. intros _. split; [|now left].
      cbn [rev]. now rewrite (total_duration_snoc (rev current ++ [v])).
    + constructor; [|apply IH, Hone].
      destruct Hb as [H | H]; [now left | right].
      now rewrite length_rev.
Qed.

(** C4. For every sequence of word units and every chunk length, the
    chunks of chunked assembly, concatenated in emission order, are the
    original sequence; no chunk is empty, and the chunk sizes add up to
    the number of units: every unit is in exactly one chunk, whole. *)
Theorem chunks_reconstruct_sequence (units : list WordFrame) :
  let chunks := chunk_word_frames chunk_duration units in
  concat chunks = units
  /\ Forall (fun chunk => chunk <> []) chunks
  /\ fold_right Nat.add 0%nat (map (@length WordFrame) chunks)
     = length units.
Proof.
  intros chunks.
  assert (Hc : concat chunks = units)
    by (unfold chunks, chunk_word_frames; now rewrite chunk_from_concat).
  split; [exact Hc|]. split; [apply chunk_from_not_nil|].
  transitivity (length (concat chunks)); [|now rewrite Hc].
  clear Hc. clearbody chunks.
  induction chunks as [|c cs IH]; [reflexivity|].
  cbn [map fold_right concat]. rewrite length_app. now rewrite IH.
Qed.

End ChunkFacts.

(** ** Job manager *)

Section ManagerFacts.

Import Backend.

Lemma update_job_lookup job_id updates s :
  jobs (snd (update_job job_id updates s)) !! job_id
  = match jobs s !! job_id with
    | Some job_data => Some (dict_update job_data updates)
    | None => None
    end.
Proof.
  unfold update_job. destruct (jobs s !! job_id) eqn:E; simpl.
  - apply lookup_insert_eq.
  - exact E.
Qed.

Lemma delete_job_lookup job_id s :
  jobs (snd (delete_job job_id s)) !! job_id = None.
Proof.
  unfold delete_job, get_job_data.
  destruct (jobs s !! job_id) eqn:E; simpl.
  - apply lookup_delete_eq.
  - exact E.
Qed.

(** The worker writes the record of its job through [update_job] only:
    after any step the record is what one [dict_update] makes of the
    record before the step, and no record stays no record. *)
Lemma worker_step_lookup path_stem isspace job_id o p s :
  let s' := snd (worker_step path_stem isspace job_id o p s) in
  match jobs s !! job_id with
  | None => jobs s' !! job_id = None
  | Some job_data =>
      exists updates, jobs s' !! job_id = Some (dict_update job_data updates)
  end.
Proof.
  assert (Hup : forall updates,
    match jobs s !! job_id with
    | None => jobs (snd (update_job job_id updates s)) !! job_id = None
    | Some job_data =>
        exists us, jobs (snd (update_job job_id updates s)) !! job_id
                   = Some (dict_update job_data us)
    end).
  { intros updates. rewrite update_job_lookup.
    destruct (jobs s !! job_id); eauto. }
  assert (Hid :
    match jobs s !! job_id with
    | None => jobs s !! job_id = None
    | Some job_data =>
        exists us, jobs s !! job_id = Some (dict_update job_data us)
    end).
  { destruct (jobs s !! job_id) eqn:E; [exists []|]; reflexivity. }
  destruct p; cbn [worker_step];
    repeat match goal with
      | |- context [let '(_, _) := update_job ?j ?u ?s in _] =>
          specialize (Hup u); destruct (update_job j u s); exact Hup
      | |- context [match ?x with _ => _ end] =>
          lazymatch x with
          | jobs _ !! _ => fail
          | _ => destruct x
          end
      end; exact Hid.
Qed.

(** C9. When no record is stored under a job id, [update_job] returns
    [None] and leaves the whole storage as it is, whatever the fields
    supplied. This is the situation after [delete_job]
    ([delete_job_lookup]), and then no step of the worker of that job
    (progress update, terminal update or any other) brings a record
    back. *)
Theorem update_job_absent (job_id : string) (updates : list update)
    (s : State) :
  jobs s !! job_id = None ->
  update_job job_id updates s = (None, s)
  /\ jobs (snd (update_job job_id updates s)) !! job_id = None
  /\ (forall path_stem isspace o p,
        jobs (snd (worker_step path_stem isspace job_id o p s)) !! job_id
        = None).
Proof.
  intros H. assert (Hu : update_job job_id updates s = (None, s))
    by (unfold update_job; now rewrite H).
  split; [exact Hu|]. split; [now rewrite Hu|].
  intros path_stem isspace o p.
  pose proof (worker_step_lookup path_stem isspace job_id o p s) as Hw.
  cbv zeta in Hw. now rewrite H in Hw.
Qed.

Lemma update_job_absent_witness :
  let s1 :=
    snd (initialize_job "1a2b3c4d" "book.txt"
           "storage/uploads/1a2b3c4d_book.txt" default_params
           "2026-01-01T00:00:00" empty_state) in
  let s := snd (delete_job "1a2b3c4d" s1) in
  let updates :=
    [set_status FAILED; set_completed_at (Some "2026-01-01T00:00:09");
     set_error_message (Some "No words found in text");
     set_current_step "Failed"] in
  is_Some (jobs s1 !! "1a2b3c4d")
  /\ jobs s !! "1a2b3c4d" = None
  /\ update_job "1a2b3c4d" updates s = (None, s).
Proof.
  intros s1 s updates.
  assert (H : jobs s !! "1a2b3c4d" = None) by (vm_compute; reflexivity).
  split; [vm_compute; eauto|]. split; [exact H|].
  exact (proj1 (update_job_absent "1a2b3c4d" updates s H)).
Defined.

End ManagerFacts.

(** ** Submission *)

Section SubmitFacts.

Import Backend.

Variable path_suffix : string -> string.
Variable str_lower : string -> string.
Variable json_loads : string -> result ParamsDict.
Variable uuid4 : nat -> string.

(** C5. A submission whose file extension is not allowed, or whose
    parameters do not decode or do not validate, is answered with an
    HTTP 400 error and leaves the storage as it was: no id is drawn, no
    upload is stored, no record is written and no task is queued. *)
Theorem create_job_rejects (file : UploadFile) (params now : string)
    (s : State) :
  (exists e, validate_file path_suffix str_lower file = Raise e)
  \/ (exists e, (do params_dict <- json_loads params;
                 VideoParams_validate params_dict) = Raise e) ->
  let out := create_job path_suffix str_lower json_loads uuid4 file params
               now s in
  (exists detail, fst out = Raise (HTTPException 400 detail))
  /\ snd out = s
  /\ minted (snd out) = minted s
  /\ jobs (snd out) = jobs s
  /\ uploads (snd out) = uploads s
  /\ tasks (snd out) = tasks s.
Proof.
  intros H out.
  assert (Hout : (exists detail, fst out = Raise (HTTPException 400 detail))
                 /\ snd out = s).
  { unfold out, create_job.
    destruct (validate_file path_suffix str_lower file) as [[]|e] eqn:Hv.
    - destruct H as [[e He] | [e He]]; [discriminate|].
      rewrite He. simpl. eauto.
    - unfold validate_file in Hv.
      destruct (existsb _ _); [discriminate|].
      injection Hv as <-. simpl. eauto. }
  destruct Hout as [Hd Hs]. split; [exact Hd|]. split; [exact Hs|].
  rewrite Hs. repeat split.
Qed.

(** An accepted submission, for comparison: one id is drawn and the
    record of that id is stored with status PENDING. *)
Lemma create_job_accepts (file : UploadFile) (params now : string)
    (s : State) video_params :
  validate_file path_suffix str_lower file = Ok tt ->
  (do params_dict <- json_loads params; VideoParams_validate params_dict)
  = Ok video_params ->
  let out := create_job path_suffix str_lower json_loads uuid4 file params
               now s in
  let job_id := substring 0 8 (uuid4 (minted s)) in
  minted (snd out) = S (minted s)
  /\ (exists job_data,
        jobs (snd out) !! job_id = Some job_data
        /\ status job_data = PENDING)
  /\ tasks (snd out) = tasks s ++ [job_id].
Proof.
  intros Hv Hp out job_id. unfold out, create_job.
  rewrite Hv, Hp. cbn. repeat split.
  eexists. split; [apply lookup_insert_eq | reflexivity].
Qed.

End SubmitFacts.

Lemma create_job_rejects_witness :
  let file := Backend.mkUploadFile (Some "notes.docx") "Some text." in
  let json_loads := fun _ : string => Ok Backend.empty_dict in
  let uuid4 := fun _ : nat => "1a2b3c4d-0000-4000-8000-000000000000" in
  let suffix := Backend.plain_suffix in
  let lower := Backend.ascii_lower in
  ((exists e, Backend.validate_file suffix lower file = Raise e)
   \/ (exists e, (do params_dict <- json_loads "{}";
                  Backend.VideoParams_validate params_dict) = Raise e))
  /\ snd (Backend.create_job suffix lower json_loads uuid4 file "{}"
            "2026-01-01T00:00:00" Backend.empty_state)
     = Backend.empty_state.
Proof.
  intros file json_loads uuid4 suffix lower.
  assert (H : (exists e, Backend.validate_file suffix lower file = Raise e)
              \/ (exists e, (do params_dict <- json_loads "{}";
                             Backend.VideoParams_validate params_dict)
                            = Raise e))
    by (left; eexists; vm_compute; reflexivity).
  split; [exact H|].
  exact (proj1 (proj2 (create_job_rejects suffix lower json_loads uuid4 file
                         "{}" "2026-01-01T00:00:00" Backend.empty_state H))).
Defined.


(** ** Job lifecycle *)

Section LifecycleFacts.

Import Backend.

Variable path_stem : string -> string.
Variable isspace : char -> bool.
Variable job_id : string.

Lemma let_pair_snd {A B C} (x : A * B) (f : B -> C) :
  (let '(_, b) := x in f b) = f (snd x).
Proof. now destruct x. Qed.

Lemma record_step_refl r : record_step r r.
Proof. destruct r; simpl; [left; reflexivity | exact I]. Qed.

Ltac lifecycle_case :=
  unfold transition, has_status, failed_is_explained, pc_status_ok in *;
  simpl in *; repeat split; intros; try tauto; try congruence;
  try (right; left; split; congruence);
  try (right; right; split; [congruence | tauto]);
  try (left; congruence).

(** What one step of the worker does to the record of its job, given the
    status the record has at the program point the worker stands at. *)
Lemma worker_step_facts o p s :
  let ps := worker_step path_stem isspace job_id o p s in
  let r := jobs s !! job_id in
  let r' := jobs (snd ps) !! job_id in
  pc_status_ok p r ->
  pc_status_ok (fst ps) r'
  /\ record_step r r'
  /\ (failed_is_explained r -> failed_is_explained r')
  /\ (has_status COMPLETED r' ->
      has_status PROCESSING r \/ has_status COMPLETED r).
Proof.
  intros ps r r' Hp. subst ps r r'.
  destruct p; cbn [worker_step];
    rewrite ?let_pair_snd; cbn [fst snd];
    rewrite ?update_job_lookup;
    unfold get_job, get_job_data;
    repeat match goal with
      | |- context [match extracted o with _ => _ end] =>
          destruct (extracted o)
      | |- context [match made_dir o with _ => _ end] =>
          destruct (made_dir o)
      | |- context [match generated o with _ => _ end] =>
          destruct (generated o)
      end;
    destruct (jobs s !! job_id) as [[]|] eqn:E; cbn [fst snd jobs];
    rewrite ?E; lifecycle_case.
Qed.

Lemma interference_facts p s s' :
  interference job_id s s' ->
  let r := jobs s !! job_id in
  let r' := jobs s' !! job_id in
  pc_status_ok p r ->
  pc_status_ok p r'
  /\ record_step r r'
  /\ (failed_is_explained r -> failed_is_explained r')
  /\ (has_status COMPLETED r' ->
      has_status PROCESSING r \/ has_status COMPLETED r).
Proof.
  intros [H | H] r r' Hp; subst r r'; rewrite H.
  - split; [exact Hp|]. split; [apply record_step_refl|].
    split; [tauto|]. intros Hc. right. exact Hc.
  - split; [exact I|]. split; [destruct (jobs s !! job_id); exact I|].
    split; [intros _; exact I|]. intros [].
Qed.

Lemma first_record_cons r r0 trace :
  first_record (r :: r0 :: trace) = first_record (r0 :: trace).
Proof. reflexivity. Qed.

(** The invariant of the runs of one job. *)
Lemma run_invariant trace p s :
  run path_stem isspace job_id trace p s ->
  hd_error trace = Some (jobs s !! job_id)
  /\ pc_status_ok p (jobs s !! job_id)
  /\ has_status PENDING (first_record trace)
  /\ transitions_ok trace
  /\ completed_after_processing trace
  /\ Forall failed_is_explained trace.
Proof.
  assert (Hext : forall trace r r' p',
    hd_error trace = Some r ->
    has_status PENDING (first_record trace)
    /\ transitions_ok trace
    /\ completed_after_processing trace
    /\ Forall failed_is_explained trace ->
    pc_status_ok p' r'
    /\ record_step r r'
    /\ (failed_is_explained r -> failed_is_explained r')
    /\ (has_status COMPLETED r' ->
        has_status PROCESSING r \/ has_status COMPLETED r) ->
    hd_error (r' :: trace) = Some r'
    /\ pc_status_ok p' r'
    /\ has_status PENDING (first_record (r' :: trace))
    /\ transitions_ok (r' :: trace)
    /\ completed_after_processing (r' :: trace)
    /\ Forall failed_is_explained (r' :: trace)).
  { intros [|r0 t] r r' p' Hhd (Hf & Ht & Hc & He) (Hp & Hs & Hx & Hd);
      [discriminate|].
    injection Hhd as ->.
    split; [reflexivity|]. split; [exact Hp|].
    split; [rewrite first_record_cons; exact Hf|].
    split; [split; assumption|].
    split.
    - split; [|exact Hc]. intros Hcomp.
      destruct (Hd Hcomp) as [H | H].
      + now apply Exists_cons_hd.
      + apply Exists_cons_tl. destruct Hc as [Hc _]. now apply Hc.
    - constructor; [|exact He]. apply Hx.
      now apply Forall_inv in He. }
  induction 1 as [filename upload_path params now s0 s
                  | o trace p s Hrun IH ps
                  | trace p s s' Hrun IH Hint].
  - subst s. unfold initialize_job. cbn [snd jobs with_jobs].
    rewrite lookup_insert_eq. simpl. repeat split; auto.
    + intros H; discriminate.
    + constructor; [|constructor]. simpl. discriminate.
  - destruct IH as (Hhd & Hp & Hrest).
    apply (Hext trace _ _ (fst ps) Hhd Hrest).
    apply worker_step_facts. exact Hp.
  - destruct IH as (Hhd & Hp & Hrest).
    apply (Hext trace _ _ p Hhd Hrest).
    now apply interference_facts.
Qed.

(** C2. Along every run of a job driven by one worker (the record is
    created by [initialize_job], the worker steps through
    [process_video_job], anything else leaves the record alone or deletes
    it), the records of the job satisfy the lifecycle invariant: the first
    record is PENDING; two consecutive records have the same status or
    are linked by PENDING -> PROCESSING, PROCESSING -> COMPLETED or
    PROCESSING -> FAILED, and a deleted record does not come back; every
    COMPLETED record has a PROCESSING record before it; every FAILED
    record has an [error_message] and a [completed_at]. *)
Theorem job_lifecycle (trace : list (option JobData)) (p : pc) (s : State) :
  run path_stem isspace job_id trace p s ->
  has_status PENDING (first_record trace)
  /\ transitions_ok trace
  /\ completed_after_processing trace
  /\ Forall failed_is_explained trace.
Proof.
  intros H. apply run_invariant in H. tauto.
Qed.

End LifecycleFacts.

Lemma job_lifecycle_witness :
  let o :=
    Backend.mkOracle "2026-01-01T00:00:05"
      (Raise (StageError "No such file")) (Ok tt) (Ok []) 0 in
  let step := Backend.run_worker Backend.plain_stem ascii_isspace "1a2b3c4d" o in
  exists trace s,
    Backend.run Backend.plain_stem ascii_isspace "1a2b3c4d" trace
      Backend.finished s
    /\ Backend.has_status Backend.FAILED (Backend.jobs s !! "1a2b3c4d")
    /\ length trace = 6%nat
    /\ Backend.transitions_ok trace
    /\ Backend.completed_after_processing trace
    /\ Forall Backend.failed_is_explained trace.
Proof.
  intros o step.
  pose proof
    (step _ _ _ (step _ _ _ (step _ _ _ (step _ _ _ (step _ _ _
       (Backend.run_submit Backend.plain_stem ascii_isspace "1a2b3c4d"
          "book.txt" "storage/uploads/1a2b3c4d_book.txt"
          Backend.default_params "2026-01-01T00:00:00"
          Backend.empty_state))))))
    as Hrun.
  cbv zeta in Hrun.
  eexists. eexists.
  split; [exact Hrun|].
  split; [vm_compute; reflexivity|].
  split; [reflexivity|].
  exact (proj2 (job_lifecycle Backend.plain_stem ascii_isspace "1a2b3c4d"
                  _ _ _ Hrun)).
Defined.

(** A run in which every stage succeeds ends with a COMPLETED record. *)
Example run_reaches_completed :
  let o :=
    Backend.mkOracle "2026-01-01T00:00:05"
      (Ok (str_of "Hello, world.")) (Ok tt) (Ok []) 3 in
  exists trace s,
    Backend.run Backend.plain_stem ascii_isspace "1a2b3c4d" trace
      Backend.finished s
    /\ exists job_data,
         Backend.jobs s !! "1a2b3c4d" = Some job_data
         /\ Backend.status job_data = Backend.COMPLETED
         /\ Backend.output_files job_data = ["book.mp4"]
         /\ Backend.total_words job_data = Some 2%Z.
Proof.
  intros o.
  pose (step := Backend.run_worker Backend.plain_stem ascii_isspace
                  "1a2b3c4d" o).
  pose proof
    (step _ _ _ (step _ _ _ (step _ _ _ (step _ _ _ (step _ _ _
       (step _ _ _ (step _ _ _ (step _ _ _ (step _ _ _ (step _ _ _
       (Backend.run_submit Backend.plain_stem ascii_isspace "1a2b3c4d"
          "book.txt" "storage/uploads/1a2b3c4d_book.txt"
          Backend.default_params "2026-01-01T00:00:00"
          Backend.empty_state)))))))))))
    as Hrun.
  cbv zeta in Hrun.
  eexists. eexists.
  split; [exact Hrun|].
  eexists. split; [vm_compute; reflexivity|].
  repeat split.
Qed.

(** * Further properties *)

(** ** Cleaning and tokenizing text *)

Section TokenFacts.

Import Speedreading.

Variable isspace : char -> bool.

Lemma split_from_nonspace text : forall cur w,
  Forall (fun c => isspace c = false) cur ->
  In w (split_from isspace cur text) ->
  Forall (fun c => isspace c = false) w.
Proof.
  induction text as [|c rest IH]; intros cur w Hcur; cbn [split_from].
  - destruct cur as [|a cur]; cbn [In]; [tauto|].
    intros [<-|[]]. now apply Forall_rev.
  - destruct (isspace c) eqn:E.
    + destruct cur as [|a cur]; cbn [In].
      * intros H. eapply IH; [|exact H]. constructor.
      * intros [<-|H]; [now apply Forall_rev|].
        eapply IH; [|exact H]. constructor.
    + apply IH. now constructor.
Qed.

Lemma split_tokens text : Forall (is_token isspace) (split isspace text).
Proof.
  apply Forall_forall. intros w Hw. apply list_elem_of_In in Hw. split.
  - eapply split_from_not_nil; exact Hw.
  - eapply split_from_nonspace; [|exact Hw]. constructor.
Qed.

Lemma lstrip_nonspace l :
  Forall (fun c => isspace c = false) l -> lstrip isspace l = l.
Proof.
  intros H. destruct l as [|c l]; [reflexivity|].
  apply Forall_inv in H. simpl. now rewrite H.
Qed.

Lemma strip_token w : is_token isspace w -> strip isspace w = w.
Proof.
  intros [Hne Hw]. unfold strip.
  rewrite (lstrip_nonspace w Hw), (lstrip_nonspace (rev w))
    by now apply Forall_rev.
  apply rev_involutive.
Qed.

Lemma filter_all {A} (f : A -> bool) l :
  Forall (fun x => f x = true) l -> List.filter f l = l.
Proof.
  induction 1 as [|x l Hx _ IH]; simpl; [reflexivity|].
  now rewrite Hx, IH.
Qed.

Lemma tokenize_text_split text :
  tokenize_text isspace text = split isspace text.
Proof.
  unfold tokenize_text. apply filter_all.
  eapply Forall_impl; [apply split_tokens|].
  intros w Hw. rewrite (strip_token w Hw).
  destruct w; [now destruct Hw | reflexivity].
Qed.

(** X1. The filter of [tokenize_text] never removes anything: the tokens
    are exactly the pieces of [str.split()], and each of them is
    non-empty and free of whitespace. *)
Theorem tokenize_text_tokens (text : str) :
  tokenize_text isspace text = split isspace text
  /\ Forall (fun w => w <> [] /\ Forall (fun c => isspace c = false) w)
       (tokenize_text isspace text).
Proof.
  split; [apply tokenize_text_split|].
  rewrite tokenize_text_split. apply split_tokens.
Qed.

Lemma split_from_concat text : forall cur,
  concat (split_from isspace cur text)
  = rev cur ++ List.filter (fun c => negb (isspace c)) text.
Proof.
  induction text as [|c rest IH]; intros cur; cbn [split_from List.filter].
  - destruct cur; cbn [concat]; now rewrite ?app_nil_r.
  - destruct (isspace c); cbn [negb].
    + destruct cur as [|a cur].
      * apply IH.
      * cbn [concat]. now rewrite IH.
    + rewrite IH. cbn [rev]. now rewrite <- app_assoc.
Qed.

(** X2. Tokenizing loses nothing but whitespace and keeps the reading
    order: the tokens, concatenated, are the text with its whitespace
    characters removed. *)
Theorem tokenize_text_content (text : str) :
  concat (tokenize_text isspace text)
  = List.filter (fun c => negb (isspace c)) text.
Proof.
  rewrite tokenize_text_split. unfold split. now rewrite split_from_concat.
Qed.

End TokenFacts.

Section CleanFacts.

Import Speedreading.

Variable isspace : char -> bool.
Hypothesis space_isspace : isspace 32%N = true.
Hypothesis newline_isspace : isspace 10%N = true.

Lemma collapse_whitespace_no_newline text : forall in_run,
  Forall (fun c => c <> 10%N) (collapse_whitespace isspace in_run text).
Proof.
  induction text as [|c rest IH]; intros in_run; cbn [collapse_whitespace].
  - constructor.
  - destruct (isspace c) eqn:E.
    + destruct in_run; [apply IH|]. constructor; [discriminate | apply IH].
    + constructor; [|apply IH]. intros ->. congruence.
Qed.

Lemma collapse_newlines_none text : forall pending,
  Forall (fun c => c <> 10%N) text ->
  collapse_newlines pending text = repeat 10%N (Nat.min pending 2) ++ text.
Proof.
  induction text as [|c rest IH]; intros pending H; cbn [collapse_newlines].
  - now rewrite app_nil_r.
  - apply Forall_cons in H as [Hc Hrest].
    destruct (N.eqb_spec c 10); [contradiction|].
    now rewrite (IH 0%nat Hrest).
Qed.

Lemma split_from_cur_not_nil text : forall cur,
  cur <> [] -> split_from isspace cur text <> [].
Proof.
  induction text as [|c rest IH]; intros cur H; cbn [split_from].
  - destruct cur; [congruence | discriminate].
  - destruct (isspace c).
    + destruct cur; [congruence | discriminate].
    + apply IH. discriminate.
Qed.

Lemma join_cons sep w ws :
  ws <> [] -> join sep (w :: ws) = w ++ sep ++ join sep ws.
Proof. destruct ws; [congruence | reflexivity]. Qed.

(** The whitespace collapse in terms of the pieces of [split]: the pieces
    joined by single spaces, followed by one more space when the text
    ends in whitespace. *)
Lemma collapse_whitespace_join text :
  (forall cur, cur <> [] ->
     exists t, (t = [] \/ t = [32%N])
       /\ rev cur ++ collapse_whitespace isspace false text
          = join [32%N] (split_from isspace cur text) ++ t)
  /\ (exists t, (t = [] \/ t = [32%N])
       /\ (split_from isspace [] text = [] -> t = [])
       /\ collapse_whitespace isspace true text
          = join [32%N] (split_from isspace [] text) ++ t).
Proof.
  induction text as [|c rest [IH1 IH2]].
  - split.
    + intros cur Hcur. exists []. split; [now left|].
      cbn [split_from collapse_whitespace].
      destruct cur; [congruence | reflexivity].
    + exists []. repeat split; auto.
  - split.
    + intros cur Hcur. cbn [split_from collapse_whitespace].
      destruct (isspace c) eqn:E.
      * destruct IH2 as (t & Ht & Hnil & Hcw).
        destruct cur as [|a cur]; [congruence|].
        destruct (split_from isspace [] rest) as [|w ws] eqn:Es.
        -- exists [32%N]. split; [now right|].
           rewrite Hcw, (Hnil eq_refl). reflexivity.
        -- exists t. split; [exact Ht|].
           rewrite join_cons by discriminate.
           rewrite Hcw. now rewrite <- !app_assoc.
      * destruct (IH1 (c :: cur) ltac:(discriminate)) as (t & Ht & Hcw).
        exists t. split; [exact Ht|].
        rewrite <- Hcw. cbn [rev]. now rewrite <- app_assoc.
    + cbn [split_from collapse_whitespace].
      destruct (isspace c) eqn:E.
      * exact IH2.
      * destruct (IH1 [c] ltac:(discriminate)) as (t & Ht & Hcw).
        exists t. split; [exact Ht|]. split.
        -- intros H. now apply split_from_cur_not_nil in H.
        -- exact Hcw.
Qed.

Lemma join_tokens_ends ws :
  Forall (is_token isspace) ws -> ws <> [] ->
  (exists c l, join [32%N] ws = c :: l /\ isspace c = false)
  /\ (exists c l, join [32%N] ws = l ++ [c] /\ isspace c = false).
Proof.
  induction 1 as [|w ws [Hne Hw] Hws IH]; [congruence|]. intros _.
  destruct ws as [|w' ws'].
  - cbn [join]. split.
    + destruct w as [|c l]; [congruence|]. exists c, l.
      apply Forall_inv in Hw. auto.
    + destruct (rev w) as [|c l] eqn:Er.
      * apply (f_equal (@rev _)) in Er. rewrite rev_involutive in Er.
        simpl in Er. congruence.
      * exists c, (rev l). split.
        -- rewrite <- (rev_involutive w), Er. reflexivity.
        -- apply Forall_rev in Hw. rewrite Er in Hw.
           now apply Forall_inv in Hw.
  - rewrite join_cons by discriminate.
    destruct (IH ltac:(discriminate)) as [_ (c & l & Hl & Hc)]. split.
    + destruct w as [|d l']; [congruence|]. exists d. eexists.
      apply Forall_inv in Hw. split; [reflexivity | exact Hw].
    + exists c. eexists. rewrite Hl. split; [|exact Hc].
      now rewrite !app_assoc.
Qed.

Lemma rstrip_join ws t :
  Forall (is_token isspace) ws -> t = [] \/ t = [32%N] ->
  rev (lstrip isspace (rev (join [32%N] ws ++ t))) = join [32%N] ws.
Proof.
  intros Hws Ht.
  assert (Hj : rev (lstrip isspace (rev (join [32%N] ws)))
               = join [32%N] ws).
  { destruct ws as [|w ws']; [reflexivity|].
    destruct (join_tokens_ends _ Hws ltac:(discriminate))
      as [_ (c & l & Hl & Hc)].
    rewrite Hl, rev_app_distr. cbn [rev app lstrip]. rewrite Hc.
    cbn [rev]. now rewrite rev_involutive. }
  destruct Ht as [-> | ->].
  - now rewrite app_nil_r.
  - rewrite rev_app_distr. cbn [rev app lstrip].
    now rewrite space_isspace.
Qed.

Lemma lstrip_collapse_whitespace text :
  lstrip isspace (collapse_whitespace isspace false text)
  = collapse_whitespace isspace true text.
Proof.
  assert (Htrue : forall text,
    lstrip isspace (collapse_whitespace isspace true text)
    = collapse_whitespace isspace true text).
  { intros t. destruct (collapse_whitespace_join t) as [_ (x & Hx & Hnil & ->)].
    destruct (split_from isspace [] t) as [|w ws] eqn:Es.
    - now rewrite (Hnil eq_refl).
    - assert (Htok : Forall (is_token isspace) (w :: ws)).
      { rewrite <- Es. apply (split_tokens isspace t). }
      destruct (join_tokens_ends _ Htok ltac:(discriminate))
        as [(c & l & Hl & Hc) _].
      rewrite Hl. cbn [app lstrip]. now rewrite Hc. }
  destruct text as [|c rest]; [reflexivity|].
  cbn [collapse_whitespace]. destruct (isspace c) eqn:E.
  - cbn [lstrip]. rewrite space_isspace. apply Htrue.
  - cbn [lstrip]. now rewrite E.
Qed.

Lemma clean_text_join text :
  clean_text isspace text = join [32%N] (split isspace text).
Proof.
  unfold clean_text, strip.
  rewrite (collapse_newlines_none _ 0%nat)
    by apply collapse_whitespace_no_newline.
  cbn [Nat.min repeat app].
  rewrite lstrip_collapse_whitespace.
  destruct (collapse_whitespace_join text) as [_ (t & Ht & _ & ->)].
  apply rstrip_join; [apply split_tokens | exact Ht].
Qed.

Lemma split_from_app w : forall cur rest,
  Forall (fun c => isspace c = false) w ->
  split_from isspace cur (w ++ rest) = split_from isspace (rev w ++ cur) rest.
Proof.
  induction w as [|c w IH]; intros cur rest H; [reflexivity|].
  apply Forall_cons in H as [Hc Hw].
  cbn [app split_from]. rewrite Hc, (IH _ _ Hw).
  cbn [rev]. now rewrite <- app_assoc.
Qed.

Lemma split_join ws :
  Forall (is_token isspace) ws -> split isspace (join [32%N] ws) = ws.
Proof.
  unfold split. induction 1 as [|w ws [Hne Hw] Hws IH]; [reflexivity|].
  assert (Hrev : rev w <> []) by now apply rev_not_nil.
  destruct ws as [|w' ws'].
  - cbn [join]. rewrite <- (app_nil_r w) at 1.
    rewrite (split_from_app w [] [] Hw), app_nil_r. cbn [split_from].
    destruct (rev w) eqn:E; [congruence|].
    rewrite <- E. now rewrite rev_involutive.
  - rewrite join_cons by discriminate.
    rewrite (split_from_app w [] _ Hw), app_nil_r.
    cbn [app split_from]. rewrite space_isspace.
    destruct (rev w) eqn:E; [congruence|].
    rewrite <- E, rev_involutive. now rewrite IH.
Qed.

(** X3. [clean_text] normalises a text to its tokens separated by single
    spaces: the result is [' '.join(text.split())]. The substitution of
    runs of three or more newlines finds nothing to replace, every
    newline having been turned into a space before. *)
Theorem clean_text_normal_form (text : str) :
  clean_text isspace text = join [32%N] (split isspace text)
  /\ collapse_newlines 0 (collapse_whitespace isspace false text)
     = collapse_whitespace isspace false text.
Proof.
  split; [apply clean_text_join|].
  now rewrite (collapse_newlines_none _ 0%nat)
    by apply collapse_whitespace_no_newline.
Qed.

(** X4. Cleaning does not change what the tokenizer finds, and cleaning
    a cleaned text changes nothing. *)
Theorem clean_text_keeps_tokens (text : str) :
  tokenize_text isspace (clean_text isspace text)
  = tokenize_text isspace text
  /\ clean_text isspace (clean_text isspace text) = clean_text isspace text.
Proof.
  assert (H : split isspace (clean_text isspace text) = split isspace text).
  { rewrite clean_text_join. apply split_join, split_tokens. }
  split.
  - now rewrite !tokenize_text_split.
  - rewrite (clean_text_join (clean_text isspace text)), H.
    symmetry. apply clean_text_join.
Qed.

End CleanFacts.

Lemma clean_text_normal_form_witness :
  let text := str_of "  Hello," ++ [10%N; 10%N; 10%N; 10%N] ++ str_of "world. " in
  ascii_isspace 32%N = true
  /\ ascii_isspace 10%N = true
  /\ Speedreading.clean_text ascii_isspace text = str_of "Hello, world.".
Proof.
  intros text.
  assert (H1 : ascii_isspace 32%N = true) by reflexivity.
  assert (H2 : ascii_isspace 10%N = true) by reflexivity.
  split; [exact H1|]. split; [exact H2|].
  rewrite (proj1 (clean_text_normal_form ascii_isspace H1 H2 text)).
  reflexivity.
Defined.

Lemma clean_text_keeps_tokens_witness :
  let text := str_of "  Hello," ++ [10%N; 10%N; 10%N; 10%N] ++ str_of "world. " in
  ascii_isspace 32%N = true
  /\ ascii_isspace 10%N = true
  /\ Speedreading.tokenize_text ascii_isspace
       (Speedreading.clean_text ascii_isspace text)
     = [str_of "Hello,"; str_of "world."].
Proof.
  intros text.
  assert (H1 : ascii_isspace 32%N = true) by reflexivity.
  assert (H2 : ascii_isspace 10%N = true) by reflexivity.
  split; [exact H1|]. split; [exact H2|].
  rewrite (proj1 (clean_text_keeps_tokens ascii_isspace H1 H2 text)).
  reflexivity.
Defined.

(** ** ORP position in a word with punctuation around it *)

Section OrpFacts.

Import Speedreading.
Local Open Scope Z_scope.

Variable isalnum : char -> bool.

Lemma leading_punct_app p rest :
  Forall (fun c => isalnum c = false) p ->
  leading_punct isalnum (p ++ rest)
  = Z.of_nat (length p) + leading_punct isalnum rest.
Proof.
  induction 1 as [|c p Hc _ IH]; [simpl; lia|].
  cbn [app leading_punct length]. rewrite Hc, IH. lia.
Qed.

Lemma clean_word_shape p a q :
  Forall (fun c => isalnum c = false) p ->
  Forall (fun c => isalnum c = true) a ->
  Forall (fun c => isalnum c = false) q ->
  clean_word isalnum (p ++ a ++ q) = a.
Proof.
  intros Hp Ha Hq. unfold clean_word.
  assert (Hnone : forall l, Forall (fun c => isalnum c = false) l ->
                            List.filter isalnum l = []).
  { induction 1 as [|c l Hc _ IH]; simpl; [reflexivity|]. now rewrite Hc. }
  rewrite !List.filter_app, (Hnone p Hp), (Hnone q Hq), app_nil_r.
  now apply filter_all.
Qed.

(** X5. For a token made of punctuation, then a run of alphanumeric
    characters, then punctuation, the ORP index is the length of the
    leading punctuation plus the table index of the run, and the
    character at that index is the character of the run that the table
    designates: an alphanumeric character is highlighted. *)
Theorem orp_index_in_alnum_run (p a q : str) (wpm : R) :
  Forall (fun c => isalnum c = false) p ->
  Forall (fun c => isalnum c = true) a ->
  a <> [] ->
  Forall (fun c => isalnum c = false) q ->
  let wf := word_frame_of isalnum (p ++ a ++ q) wpm in
  orp_index wf = Z.of_nat (length p) + calculate_orp a
  /\ exists c,
       word wf !! Z.to_nat (orp_index wf) = Some c
       /\ a !! Z.to_nat (calculate_orp a) = Some c
       /\ isalnum c = true.
Proof.
  intros Hp Ha Hne Hq wf.
  assert (Hi : orp_index wf = Z.of_nat (length p) + calculate_orp a).
  { unfold wf, word_frame_of. cbn [orp_index].
    rewrite (clean_word_shape p a q Hp Ha Hq), (leading_punct_app p _ Hp).
    destruct a as [|c a']; [congruence|].
    apply Forall_inv in Ha. cbn [app leading_punct]. rewrite Ha. lia. }
  split; [exact Hi|].
  pose proof (calculate_orp_range a Hne) as Hr.
  destruct (lookup_lt_is_Some_2 a (Z.to_nat (calculate_orp a)) ltac:(lia))
    as [c Hc].
  exists c. split; [|split; [exact Hc|]].
  - rewrite Hi. change (word wf) with (p ++ a ++ q). unfold str in *.
    replace (Z.to_nat (Z.of_nat (length p) + calculate_orp a))
      with (length p + Z.to_nat (calculate_orp a))%nat by lia.
    rewrite lookup_app_r by lia.
    replace (length p + Z.to_nat (calculate_orp a) - length p)%nat
      with (Z.to_nat (calculate_orp a)) by lia.
    rewrite lookup_app_l by lia. exact Hc.
  - eapply Forall_forall in Ha; [exact Ha|].
    eapply list_elem_of_lookup_2. exact Hc.
Qed.

End OrpFacts.

Lemma orp_index_in_alnum_run_witness :
  let p := str_of "(" in
  let a := str_of "Hello" in
  let q := str_of ")," in
  Forall (fun c => ascii_isalnum c = false) p
  /\ Forall (fun c => ascii_isalnum c = true) a
  /\ a <> []
  /\ Forall (fun c => ascii_isalnum c = false) q
  /\ Speedreading.orp_index
       (Speedreading.word_frame_of ascii_isalnum (p ++ a ++ q) 300)
     = 2%Z.
Proof.
  intros p a q.
  assert (H1 : Forall (fun c => ascii_isalnum c = false) p)
    by (repeat constructor).
  assert (H2 : Forall (fun c => ascii_isalnum c = true) a)
    by (repeat constructor).
  assert (H3 : a <> []) by discriminate.
  assert (H4 : Forall (fun c => ascii_isalnum c = false) q)
    by (repeat constructor).
  repeat (split; [assumption|]).
  rewrite (proj1 (orp_index_in_alnum_run ascii_isalnum p a q 300 H1 H2 H3 H4)).
  reflexivity.
Defined.

(** ** More on the pacing schedule *)

Section ScheduleMore.

Import Speedreading.
Local Open Scope Z_scope.

Lemma known_style_dec ramp_style :
  known_style ramp_style
  \/ (String.eqb ramp_style "smooth" = false
      /\ String.eqb ramp_style "linear" = false
      /\ String.eqb ramp_style "stepped" = false).
Proof.
  unfold known_style.
  destruct (String.eqb_spec ramp_style "smooth"); [tauto|].
  destruct (String.eqb_spec ramp_style "linear"); [tauto|].
  destruct (String.eqb_spec ramp_style "stepped"); tauto.
Qed.

(** X6. [create_wpm_schedule] never returns an empty schedule: for
    [total_words <= 1] (zero and negative counts included) it returns the
    single value [start_wpm], and it does so before looking at
    [ramp_style], so that an unknown style is accepted there; for
    [total_words >= 2] a known style gives exactly [total_words] entries
    and an unknown style raises [ValueError]. *)
Theorem create_wpm_schedule_shape
    (start_wpm peak_wpm : R) (total_words : Z) (ramp_words : option Z)
    (ramp_style : string) :
  (total_words <= 1 ->
   create_wpm_schedule start_wpm peak_wpm total_words ramp_words ramp_style
   = Ok [start_wpm])
  /\ (2 <= total_words -> known_style ramp_style ->
      exists schedule,
        create_wpm_schedule start_wpm peak_wpm total_words ramp_words
          ramp_style = Ok schedule
        /\ length schedule = Z.to_nat total_words)
  /\ (2 <= total_words -> ~ known_style ramp_style ->
      create_wpm_schedule start_wpm peak_wpm total_words ramp_words
        ramp_style
      = Raise (ValueError ("Unknown ramp_style: " +:+ ramp_style))).
Proof.
  split; [|split].
  - intros H. unfold create_wpm_schedule.
    destruct (Z.leb_spec total_words 1); [reflexivity | lia].
  - intros Ht Hs.
    destruct (create_wpm_schedule_known start_wpm peak_wpm total_words
                ramp_words ramp_style Ht Hs) as (f & _ & ->).
    eexists. split; [reflexivity|]. now rewrite length_map, range_length.
  - intros Ht Hs. unfold create_wpm_schedule.
    destruct (Z.leb_spec total_words 1); [lia|].
    destruct (known_style_dec ramp_style) as [Hk | (-> & -> & ->)];
      [contradiction | reflexivity].
Qed.






(** X8. With two or more words, the first word is shown at [start_wpm]
    whenever [ramp_words] is absent or at least 1; when [ramp_words] is
    given as 0 or less there is no ramp and every word is shown at
    [peak_wpm]. *)
Theorem create_wpm_schedule_first
    (start_wpm peak_wpm : R) (total_words : Z) (ramp_words : option Z)
    (ramp_style : string) :
  2 <= total_words ->
  known_style ramp_style ->
  exists schedule,
    create_wpm_schedule start_wpm peak_wpm total_words ramp_words ramp_style
    = Ok schedule
    /\ (ramp_words = None \/ (exists r, ramp_words = Some r /\ 1 <= r) ->
        schedule !! 0%nat = Some start_wpm)
    /\ ((exists r, ramp_words = Some r /\ r <= 0) ->
        Forall (fun wpm => wpm = peak_wpm) schedule).
Proof.
  intros Ht Hs.
  destruct (create_wpm_schedule_known start_wpm peak_wpm total_words
              ramp_words ramp_style Ht Hs) as (f & Hf & ->).
  eexists. split; [reflexivity|]. split.
  - intros Hr.
    assert (Hpos : 0 < resolve_ramp_words total_words ramp_words).
    { unfold resolve_ramp_words.
      destruct Hr as [-> | (r & -> & Hr)]; lia. }
    rewrite map_range_lookup_lt by lia. f_equal.
    change (Z.of_nat 0) with 0.
    destruct Hf as [[_ ->] | [[_ ->] | [_ ->]]];
      unfold smooth_wpm, linear_wpm; rewrite ?stepped_wpm_eq;
      destruct (Z.ltb_spec 0 (resolve_ramp_words total_words ramp_words));
      try lia; cbv zeta.
    + unfold Rdiv at 2. rewrite Rmult_0_l, Rmult_0_l, cos_0. lra.
    + unfold Rdiv. rewrite Rmult_0_l. lra.
    + rewrite Z.div_0_l by lia. rewrite Z.min_l by lia. lra.
  - intros (r & -> & Hr).
    apply Forall_forall. intros wpm Hin.
    apply list_elem_of_lookup in Hin as [i Hi].
    apply map_range_lookup in Hi as [_ ->].
    assert (Hres : resolve_ramp_words total_words (Some r) <= Z.of_nat i)
      by (unfold resolve_ramp_words; lia).
    destruct Hf as [[_ ->] | [[_ ->] | [_ ->]]];
      unfold smooth_wpm, linear_wpm, stepped_wpm;
      destruct (Z.ltb_spec (Z.of_nat i)
                  (resolve_ramp_words total_words (Some r)));
      try lia; reflexivity.
Qed.

Lemma create_wpm_schedule_first_witness :
  2 <= 30
  /\ known_style "smooth"
  /\ exists schedule,
       create_wpm_schedule 200 600 30 None "smooth" = Ok schedule
       /\ schedule !! 0%nat = Some 200%R.
Proof.
  assert (H1 : 2 <= 30) by lia.
  assert (H2 : known_style "smooth") by (left; reflexivity).
  split; [exact H1|]. split; [exact H2|].
  destruct (create_wpm_schedule_first 200 600 30 None "smooth" H1 H2)
    as (schedule & Hs & Hfirst & _).
  exists schedule. split; [exact Hs|]. apply Hfirst. now left.
Defined.

End ScheduleMore.

(** ** Rendering outside the range the pipeline uses *)

Section RenderMore.

Import Speedreading.
Local Open Scope Z_scope.

Variable char_width : char -> Z.
Variable reference_top : Z.
Variable reference_bottom : Z.

Lemma py_index_below {A} (l : list A) (i : Z) :
  i < - Z.of_nat (length l) -> py_index l i = None.
Proof.
  intros H. unfold py_index.
  destruct (Z.leb_spec 0 i); [lia|].
  destruct (Z.leb_spec (- Z.of_nat (length l)) i); [lia | reflexivity].
Qed.

Lemma py_index_negative {A} (l : list A) (i : Z) :
  - Z.of_nat (length l) <= i < 0 -> is_Some (py_index l i).
Proof.
  intros H. unfold py_index.
  destruct (Z.leb_spec 0 i); [lia|].
  destruct (Z.leb_spec (- Z.of_nat (length l)) i); [|lia].
  destruct (Z.ltb_spec i 0); [|lia]. cbn [andb].
  apply lookup_lt_is_Some_2. lia.
Qed.

Lemma layout_succeeds (wf : WordFrame) (width : Z) :
  word wf = [] \/ - Z.of_nat (length (word wf)) <= orp_index wf ->
  exists start_x,
    layout char_width wf width
    = Ok (Z.min (orp_index wf) (Z.of_nat (length (word wf)) - 1),
          map char_width (word wf), start_x).
Proof.
  intros H. unfold layout.
  destruct (word wf) as [|c w] eqn:E; [eexists; reflexivity|].
  destruct H as [H | H]; [discriminate|].
  set (idx := Z.min _ _).
  assert (Hidx : - Z.of_nat (length (c :: w)) <= idx
                 < Z.of_nat (length (c :: w)))
    by (unfold idx; cbn [length] in *; lia).
  clearbody idx.
  assert (Hsome : is_Some (py_index (map char_width (c :: w)) idx)).
  { destruct (Z.le_gt_cases 0 idx).
    - rewrite py_index_in_range by (rewrite length_map; lia).
      apply lookup_lt_is_Some_2. rewrite length_map. lia.
    - apply py_index_negative. rewrite length_map. lia. }
  destruct Hsome as [x Hx].
  cbn [map] in Hx |- *. rewrite Hx. eexists. reflexivity.
Qed.

(** X9. [render_word_frame] raises exactly when the word is not empty
    and [orp_index] lies below [-len(word)]: the width lookup at the
    clamped position is then out of range. An empty word is rendered as
    the two marks alone; an [orp_index] from [-len(word)] to [-1] is
    accepted as an index counted from the end, and then no character
    takes the highlight colour. *)
Theorem render_word_frame_raises_iff (wf : WordFrame) (width height : Z)
    (bg_color text_color orp_color : string) :
  let n := Z.of_nat (length (word wf)) in
  let rendered :=
    render_word_frame char_width reference_top reference_bottom wf
      width height bg_color text_color orp_color in
  (word wf <> [] /\ orp_index wf < - n ->
   rendered = Raise (IndexError "list index out of range"))
  /\ (word wf = [] \/ - n <= orp_index wf ->
      exists frame marks chars,
        rendered = Ok frame
        /\ drawn frame = marks ++ chars
        /\ length marks = 2%nat
        /\ length chars = length (word wf)
        /\ (orp_index wf < 0 ->
            forall j x y c fill,
              chars !! j = Some (DrawText x y c fill) ->
              fill = text_color)).
Proof.
  intros n rendered. split.
  - intros [Hne Hlow]. unfold rendered, render_word_frame, layout.
    destruct (word wf) as [|c w] eqn:E; [congruence|].
    cbn [map]. rewrite py_index_below; [reflexivity|].
    cbn [length] in *. rewrite length_map. unfold n in Hlow.
    cbn [length] in Hlow. lia.
  - intros Hok.
    destruct (layout_succeeds wf width Hok) as [start_x Hlay].
    set (idx := Z.min (orp_index wf) (Z.of_nat (length (word wf)) - 1))
      in *.
    set (y_base := (height - (reference_bottom - reference_top)) / 2
                   - reference_top).
    destruct (draw_chars_ok (map char_width (word wf)) idx y_base
                text_color orp_color (word wf) 0%nat start_x)
      as (chars & Hd & Hl & Hj).
    { rewrite length_map. lia. }
    eexists. eexists. exists chars. unfold rendered, render_word_frame.
    rewrite Hlay. cbn [bind]. unfold enumerate, range.
    rewrite Nat2Z.id. fold y_base. rewrite Hd. cbn [bind].
    split; [reflexivity|]. split; [reflexivity|].
    split; [reflexivity|]. split; [exact Hl|].
    intros Hneg j x y c fill Hc.
    assert (Hjlt : (j < length (word wf))%nat).
    { rewrite <- Hl. eapply lookup_lt_Some. exact Hc. }
    destruct (lookup_lt_is_Some_2 (word wf) j Hjlt) as [cj Hcj].
    rewrite (Hj j cj Hcj) in Hc. injection Hc as _ _ _ <-.
    change (0 + j)%nat with j.
    destruct (Z.eqb_spec (Z.of_nat j) idx); [|reflexivity].
    unfold idx in *. lia.
Qed.

End RenderMore.

(** ** The generation pipeline *)

Section PipelineFacts.

Import Speedreading.
Local Open Scope Z_scope.

Variable isalnum : char -> bool.
Variable isspace : char -> bool.
Variable char_width : char -> Z.
Variable reference_top : Z.
Variable reference_bottom : Z.
Hypothesis space_isspace : isspace 32%N = true.
Hypothesis newline_isspace : isspace 10%N = true.

Lemma pipeline_words text :
  tokenize_text isspace (clean_text isspace text) = split isspace text.
Proof.
  rewrite tokenize_text_split,
    (clean_text_join isspace space_isspace newline_isspace).
  apply (split_join isspace space_isspace), split_tokens.
Qed.

Lemma split_nil_iff text :
  split isspace text = [] <-> Forall (fun c => isspace c = true) text.
Proof.
  pose proof (split_from_concat isspace text []) as Hc. fold (split isspace text) in Hc.
  cbn [rev app] in Hc. split.
  - intros H. rewrite H in Hc. cbn [concat] in Hc.
    apply Forall_forall. intros c Hin. apply list_elem_of_In in Hin.
    destruct (isspace c) eqn:E; [reflexivity|].
    assert (In c (List.filter (fun c => negb (isspace c)) text))
      by (apply filter_In; split; [exact Hin | now rewrite E]).
    rewrite <- Hc in H0. destruct H0.
  - intros H.
    assert (Hf : List.filter (fun c => negb (isspace c)) text = []).
    { clear Hc. induction H as [|c l Hc _ IH]; simpl; [reflexivity|].
      now rewrite Hc. }
    rewrite Hf in Hc.
    pose proof (split_tokens isspace text) as Htok.
    destruct (split isspace text) as [|w ws]; [reflexivity|].
    apply Forall_inv in Htok as [Hne _].
    cbn [concat] in Hc. apply app_eq_nil in Hc as [-> _]. congruence.
Qed.

Lemma render_raises_index_error wf width height bg_color text_color
    orp_color e :
  render_word_frame char_width reference_top reference_bottom wf width
    height bg_color text_color orp_color = Raise e ->
  e = IndexError "list index out of range".
Proof.
  unfold render_word_frame, layout.
  destruct (map char_width (word wf)) as [|x l] eqn:Em.
  - cbn [bind].
    assert (Hw : word wf = []) by (destruct (word wf); [reflexivity | discriminate]).
    rewrite Hw. cbn. discriminate.
  - destruct (py_index (x :: l) _) eqn:Ep; cbn [bind].
    + rewrite <- Em.
      destruct (draw_chars_ok (map char_width (word wf))
                  (Z.min (orp_index wf) (Z.of_nat (length (word wf)) - 1))
                  ((height - (reference_bottom - reference_top)) / 2
                   - reference_top)
                  text_color orp_color (word wf) 0%nat
                  (width / 2
                   - sumZ (py_slice_to (map char_width (word wf))
                             (Z.min (orp_index wf)
                                (Z.of_nat (length (word wf)) - 1)))
                   - z / 2))
        as (chars & Hd & _).
      { rewrite length_map. lia. }
      unfold enumerate, range. rewrite Nat2Z.id, Hd. cbn. discriminate.
    + intros H. injection H as <-. reflexivity.
Qed.

Lemma word_clips_raise width height bg_color text_color orp_color show_wpm
    items e :
  word_clips isalnum char_width reference_top reference_bottom width height
    bg_color text_color orp_color show_wpm items = Raise e ->
  e = StageError "float division by zero"
  \/ e = IndexError "list index out of range".
Proof.
  induction items as [|[w wpm] rest IH]; cbn [word_clips]; [discriminate|].
  unfold word_clip. destruct (Req_dec_T wpm 0).
  - cbn [bind]. intros H. injection H as <-. now left.
  - destruct (render_word_frame _ _ _ _ _ _ _ _ _) eqn:Er; cbn [bind].
    + destruct (word_clips _ _ _ _ _ _ _ _ _ _ rest) eqn:Ec; cbn [bind];
        [discriminate|].
      intros H. injection H as <-. now apply IH.
    + intros H. injection H as <-. right.
      eapply render_raises_index_error. exact Er.
Qed.

(** X10. [generate_speed_reading_video] raises [ValueError("No words
    found in text")] exactly when the text has no character that is not
    whitespace, whatever the other arguments are. *)
Theorem generate_no_words_iff (text : str) (start_wpm peak_wpm : R)
    (ramp_words : option Z) (ramp_style : string) (width height : Z)
    (bg_color text_color orp_color : string) (show_wpm : bool) :
  generate_speed_reading_video isalnum isspace char_width reference_top
    reference_bottom text start_wpm peak_wpm ramp_words ramp_style width
    height bg_color text_color orp_color show_wpm
  = Raise (ValueError "No words found in text")
  <-> Forall (fun c => isspace c = true) text.
Proof.
  unfold generate_speed_reading_video. rewrite pipeline_words.
  rewrite <- split_nil_iff.
  destruct (split isspace text) as [|w ws] eqn:Es; [tauto|].
  split; [|discriminate]. intros H. exfalso.
  destruct (create_wpm_schedule _ _ _ _ _) as [schedule|e] eqn:Ec;
    cbn [bind] in H.
  - apply word_clips_raise in H as [H | H]; discriminate.
  - injection H as ->. unfold create_wpm_schedule in Ec.
    destruct (_ <=? 1); [discriminate|].
    repeat (destruct (String.eqb ramp_style _); [discriminate|]).
    discriminate.
Qed.





End PipelineFacts.

Lemma generate_no_words_iff_witness :
  let width_of := fun c : char => if (c =? 105)%N then 28%Z else 72%Z in
  ascii_isspace 32%N = true
  /\ ascii_isspace 10%N = true
  /\ Speedreading.generate_speed_reading_video ascii_isalnum ascii_isspace
       width_of 20 130 [32%N; 10%N; 9%N] 200 600 None "smooth" 1920 1080
       "#1a1a2e" "#ffffff" "#ff0000" true
     = Raise (ValueError "No words found in text").
Proof.
  intros width_of.
  assert (H1 : ascii_isspace 32%N = true) by reflexivity.
  assert (H2 : ascii_isspace 10%N = true) by reflexivity.
  split; [exact H1|]. split; [exact H2|].
  apply (generate_no_words_iff ascii_isalnum ascii_isspace width_of 20 130
           H1 H2).
  repeat constructor.
Defined.


(** ** Parameter validation *)

Section ParamsFacts.

Import Backend.

Lemma int_field_ok name v default ge le x :
  int_field name v default ge le = Ok x ->
  (ge <= default <= le)%Z -> (ge <= x <= le)%Z.
Proof.
  unfold int_field, validation_error.
  destruct v as [y|]; [|intros H; injection H as <-; tauto].
  destruct (Z.leb_spec ge y), (Z.leb_spec y le); cbn [andb];
    intros Hx; try discriminate.
  injection Hx as <-. lia.
Qed.

Lemma opt_int_field_ok name v ge le x :
  opt_int_field name v ge le = Ok x ->
  forall r, x = Some r -> (ge <= r <= le)%Z.
Proof.
  unfold opt_int_field, validation_error.
  destruct v as [y|]; [|intros H; injection H as <-; discriminate].
  destruct (Z.leb_spec ge y), (Z.leb_spec y le); cbn [andb];
    intros Hx; try discriminate.
  injection Hx as <-. intros r Hr. injection Hr as <-. lia.
Qed.

Lemma opt_float_field_ok name v ge le x :
  opt_float_field name v ge le = Ok x ->
  forall q, x = Some q -> (ge <= q)%Q /\ (q <= le)%Q.
Proof.
  unfold opt_float_field, validation_error.
  destruct v as [y|]; [|intros H; injection H as <-; discriminate].
  destruct (Qle_bool ge y) eqn:E1, (Qle_bool y le) eqn:E2; cbn [andb];
    intros H; try discriminate.
  injection H as <-. intros q Hq. injection Hq as <-.
  split; now apply Qle_bool_iff.
Qed.

Lemma color_field_ok name v default x :
  color_field name v default = Ok x ->
  is_hex_color default = true -> is_hex_color x = true.
Proof.
  unfold color_field, validation_error.
  destruct v as [y|]; [|intros H; injection H as <-; tauto].
  destruct (is_hex_color y) eqn:E; intros H; [|discriminate].
  now injection H as <-.
Qed.

(** X12. Parameters that pass validation satisfy every field constraint
    of [VideoParams]: the wpm, ramp, chunk, size, font and fps bounds and
    the three colour patterns, whether the value was given or defaulted.
    No relation between [start_wpm] and [peak_wpm] is among them. *)
Theorem VideoParams_validate_sound (d : ParamsDict) (p : VideoParams) :
  VideoParams_validate d = Ok p -> params_valid p.
Proof.
  unfold VideoParams_validate.
  destruct (int_field "start_wpm" _ _ _ _) as [a1|] eqn:E1;
    cbn [bind]; [|discriminate].
  destruct (int_field "peak_wpm" _ _ _ _) as [a2|] eqn:E2;
    cbn [bind]; [|discriminate].
  destruct (opt_int_field _ _ _ _) as [a3|] eqn:E3;
    cbn [bind]; [|discriminate].
  destruct (ramp_style_field _) as [a4|] eqn:E4;
    cbn [bind]; [|discriminate].
  destruct (opt_float_field _ _ _ _) as [a5|] eqn:E5;
    cbn [bind]; [|discriminate].
  destruct (int_field "width" _ _ _ _) as [a6|] eqn:E6;
    cbn [bind]; [|discriminate].
  destruct (int_field "height" _ _ _ _) as [a7|] eqn:E7;
    cbn [bind]; [|discriminate].
  destruct (int_field "font_size" _ _ _ _) as [a8|] eqn:E8;
    cbn [bind]; [|discriminate].
  destruct (int_field "fps" _ _ _ _) as [a9|] eqn:E9;
    cbn [bind]; [|discriminate].
  destruct (color_field "bg_color" _ _) as [a10|] eqn:E10;
    cbn [bind]; [|discriminate].
  destruct (color_field "text_color" _ _) as [a11|] eqn:E11;
    cbn [bind]; [|discriminate].
  destruct (color_field "orp_color" _ _) as [a12|] eqn:E12;
    cbn [bind]; [|discriminate].
  intros Hp. injection Hp as <-.
  unfold params_valid. cbn.
  apply int_field_ok in E1, E2, E6, E7, E8, E9; try lia.
  pose proof (opt_int_field_ok _ _ _ _ _ E3) as Hramp.
  pose proof (opt_float_field_ok _ _ _ _ _ E5) as Hchunk.
  apply color_field_ok in E10, E11, E12; try reflexivity.
  repeat split; try assumption; try lia;
    try (now apply Hramp); now apply Hchunk.
Qed.

Lemma VideoParams_validate_sound_witness :
  let d :=
    mkParamsDict (Some 1000%Z) (Some 100%Z) None (Some "stepped")
      (Some 30%Q) None None None None None None (Some "#00ff00") None None in
  exists p,
    VideoParams_validate d = Ok p
    /\ start_wpm p = 1000%Z /\ peak_wpm p = 100%Z
    /\ params_valid p.
Proof.
  intros d. eexists. split; [reflexivity|].
  split; [reflexivity|]. split; [reflexivity|].
  apply (VideoParams_validate_sound d). reflexivity.
Defined.

(** X13. Valid parameters survive being stored and read back: validating
    the dump of parameters that satisfy the field constraints returns
    these very parameters. Hence a record written by [initialize_job]
    from validated parameters is read back by [_to_response] without a
    validation error. *)
Theorem VideoParams_dump_validate (p : VideoParams) :
  params_valid p -> VideoParams_validate (model_dump p) = Ok p.
Proof.
  intros (H1 & H2 & H3 & H4 & H5 & H6 & H7 & H8 & H9 & H10 & H11).
  destruct p as [sw pw rw rs cd w h fs fp bg tc oc sh pr].
  cbn in *. unfold VideoParams_validate, model_dump.
  cbn [d_start_wpm d_peak_wpm d_ramp_words d_ramp_style d_chunk_duration
       d_width d_height d_font_size d_fps d_bg_color d_text_color
       d_orp_color d_show_wpm d_preprocess start_wpm peak_wpm ramp_words
       ramp_style chunk_duration width height font_size fps bg_color
       text_color orp_color show_wpm preprocess].
  unfold int_field.
  repeat match goal with
    | |- context [(?a <=? ?b)%Z] =>
        destruct (Z.leb_spec a b); [|lia]
    end.
  cbn [andb bind].
  assert (E3 : opt_int_field "ramp_words" rw 10 500 = Ok rw).
  { unfold opt_int_field. destruct rw as [r|]; [|reflexivity].
    specialize (H3 r eq_refl).
    destruct (Z.leb_spec 10 r), (Z.leb_spec r 500); try lia. reflexivity. }
  assert (E4 : ramp_style_field (Some (RampStyle_value rs)) = Ok rs)
    by (destruct rs; reflexivity).
  assert (E5 : opt_float_field "chunk_duration" cd 5 300 = Ok cd).
  { unfold opt_float_field. destruct cd as [q|]; [|reflexivity].
    destruct (H4 q eq_refl) as [Ha Hb].
    apply Qle_bool_iff in Ha, Hb. now rewrite Ha, Hb. }
  rewrite E3, E4, E5. cbn [bind].
  unfold color_field. rewrite H9, H10, H11. reflexivity.
Qed.

Lemma VideoParams_dump_validate_witness :
  params_valid default_params
  /\ VideoParams_validate (model_dump default_params) = Ok default_params.
Proof.
  assert (H : params_valid default_params).
  { unfold params_valid. cbn. repeat split; try lia; discriminate. }
  split; [exact H|]. exact (VideoParams_dump_validate default_params H).
Defined.

End ParamsFacts.

(** ** Job manager operations *)

Section ManagerMore.

Import Backend.

Lemma with_jobs_same s : with_jobs s (jobs s) = s.
Proof. now destruct s. Qed.

Lemma dict_update_app j u1 u2 :
  dict_update (dict_update j u1) u2 = dict_update j (u1 ++ u2).
Proof. unfold dict_update. now rewrite fold_left_app. Qed.

(** X14. A record written by [initialize_job] is read back by [get_job]
    as the response that [initialize_job] returned: PENDING, progress 0,
    step "Queued", no output files, no timestamps but [created_at]. The
    records of other ids and the uploads are left as they were; a record
    already stored under the id is overwritten. *)
Theorem initialize_job_get_job (job_id filename upload_path : string)
    (params : VideoParams) (now : string) (s : State) :
  let out := initialize_job job_id filename upload_path params now s in
  get_job job_id (snd out) = Some (fst out)
  /\ fst out
     = mkJobResponse job_id PENDING filename params now None None 0
         "Queued" None None [] None None
  /\ (forall other, other <> job_id ->
        get_job_data other (snd out) = get_job_data other s)
  /\ uploads (snd out) = uploads s
  /\ outputs (snd out) = outputs s
  /\ minted (snd out) = minted s.
Proof.
  cbv zeta. unfold initialize_job, get_job, get_job_data.
  cbn [fst snd jobs with_jobs uploads outputs minted].
  rewrite lookup_insert_eq. repeat split.
  intros other Hne. now rewrite lookup_insert_ne.
Qed.

(** X15. On a stored record, [update_job] returns the response that
    [get_job] reads afterwards; two updates in a row are one update with
    the keyword arguments of the first followed by those of the second
    (a later value of a field wins); an update without arguments changes
    nothing; no other record is touched. *)
Theorem update_job_stored (job_id : string) (u1 u2 : list update)
    (s : State) (job_data : JobData) :
  jobs s !! job_id = Some job_data ->
  fst (update_job job_id u1 s) = Some (to_response (dict_update job_data u1))
  /\ get_job job_id (snd (update_job job_id u1 s))
     = fst (update_job job_id u1 s)
  /\ update_job job_id u2 (snd (update_job job_id u1 s))
     = update_job job_id (u1 ++ u2) s
  /\ snd (update_job job_id [] s) = s
  /\ (forall other, other <> job_id ->
        jobs (snd (update_job job_id u1 s)) !! other = jobs s !! other).
Proof.
  intros H. unfold update_job, get_job. rewrite H.
  cbn [fst snd jobs with_jobs uploads outputs minted tasks].
  rewrite !lookup_insert_eq. repeat split.
  - rewrite dict_update_app. f_equal. unfold with_jobs.
    cbn [jobs uploads outputs minted tasks].
    now rewrite insert_insert_eq.
  - cbn [dict_update fold_left]. rewrite insert_id by exact H.
    apply with_jobs_same.
  - intros other Hne. now rewrite lookup_insert_ne.
Qed.

Lemma update_job_stored_witness :
  let s :=
    snd (initialize_job "1a2b3c4d" "book.txt"
           "storage/uploads/1a2b3c4d_book.txt" default_params
           "2026-01-01T00:00:00" empty_state) in
  exists job_data,
    jobs s !! "1a2b3c4d" = Some job_data
    /\ update_job "1a2b3c4d" [set_progress_percent 20]
         (snd (update_job "1a2b3c4d" [set_progress_percent 10] s))
       = update_job "1a2b3c4d"
           ([set_progress_percent 10] ++ [set_progress_percent 20]) s.
Proof.
  intros s. eexists.
  assert (H : jobs s !! "1a2b3c4d"
              = Some (mkJobData "1a2b3c4d" PENDING "book.txt"
                        "storage/uploads/1a2b3c4d_book.txt" default_params
                        "2026-01-01T00:00:00" None None 0 "Queued" None
                        None [] None None))
    by (vm_compute; reflexivity).
  split; [exact H|].
  exact (proj1 (proj2 (proj2
           (update_job_stored "1a2b3c4d" [set_progress_percent 10]
              [set_progress_percent 20] s _ H)))).
Defined.


End ManagerMore.

(** ** Accepted submissions and uploads *)

Section SubmitMore.

Import Backend.

Variable path_suffix : string -> string.
Variable str_lower : string -> string.
Variable json_loads : string -> result ParamsDict.
Variable uuid4 : nat -> string.


End SubmitMore.

Section UploadPaths.

Import Backend.

Variable path_suffix : string -> string.

Lemma append_cancel_l p a b : p +:+ a = p +:+ b -> a = b.
Proof.
  induction p as [|c p IH]; simpl; [tauto|].
  intros H. injection H as H. now apply IH.
Qed.

Lemma append_same_length a : forall b x y,
  String.length a = String.length b -> a +:+ x = b +:+ y -> a = b.
Proof.
  induction a as [|c a IH]; intros [|d b] x y Hlen H; simpl in *;
    try discriminate; [reflexivity|].
  injection H as -> H. injection Hlen as Hlen.
  f_equal. eapply IH; eauto.
Qed.

(** X18. The uploads of two jobs never share a path when the two ids are
    different and equally long, as the eight-character ids of
    [JobManager.create_job] are: an upload does not overwrite the upload
    of another job, whatever the two file names. *)
Theorem save_upload_paths_differ (file1 file2 : UploadFile)
    (id1 id2 : string) (s1 s2 : State) :
  String.length id1 = String.length id2 ->
  id1 <> id2 ->
  fst (save_upload path_suffix file1 id1 s1)
  <> fst (save_upload path_suffix file2 id2 s2).
Proof.
  intros Hlen Hne. unfold save_upload. cbn [fst]. intros H.
  apply append_cancel_l, append_cancel_l in H.
  apply append_same_length in H; [contradiction | exact Hlen].
Qed.

End UploadPaths.


Lemma save_upload_paths_differ_witness :
  let file := Backend.mkUploadFile (Some "b_c.txt") "x" in
  String.length "1a2b3c4d" = String.length "1a2b3c4e"
  /\ "1a2b3c4d" <> "1a2b3c4e"
  /\ fst (Backend.save_upload Backend.plain_suffix file "1a2b3c4d"
            Backend.empty_state)
     <> fst (Backend.save_upload Backend.plain_suffix file "1a2b3c4e"
               Backend.empty_state).
Proof.
  intros file.
  assert (H1 : String.length "1a2b3c4d" = String.length "1a2b3c4e")
    by reflexivity.
  assert (H2 : "1a2b3c4d" <> "1a2b3c4e") by discriminate.
  split; [exact H1|]. split; [exact H2|].
  exact (save_upload_paths_differ Backend.plain_suffix file file
           "1a2b3c4d" "1a2b3c4e" Backend.empty_state Backend.empty_state
           H1 H2).
Defined.

(** ** The worker as a whole *)

Section WorkerMore.

Import Backend.

Variable path_stem : string -> string.
Variable isspace : char -> bool.
Variable job_id : string.

Lemma update_job_frame updates s :
  let s' := snd (update_job job_id updates s) in
  (forall other, other <> job_id -> jobs s' !! other = jobs s !! other)
  /\ uploads s' = uploads s
  /\ outputs s' = outputs s
  /\ minted s' = minted s
  /\ tasks s' = tasks s.
Proof.
  cbv zeta. unfold update_job. destruct (jobs s !! job_id);
    cbn [snd jobs uploads outputs minted tasks with_jobs];
    repeat split; try reflexivity.
  intros other Hne. now rewrite lookup_insert_ne.
Qed.

(** X19. A step of the worker of one job touches nothing that belongs to
    another job: the records and the output directories of other ids,
    all uploads, the count of ids drawn and the queue of tasks are after
    the step what they were before it. *)
Theorem worker_step_frame (o : Oracle) (p : pc) (s : State) :
  let s' := snd (worker_step path_stem isspace job_id o p s) in
  (forall other, other <> job_id ->
     jobs s' !! other = jobs s !! other
     /\ outputs s' !! other = outputs s !! other)
  /\ uploads s' = uploads s
  /\ minted s' = minted s
  /\ tasks s' = tasks s.
Proof.
  assert (Hup : forall updates,
    let s' := snd (update_job job_id updates s) in
    (forall other, other <> job_id ->
       jobs s' !! other = jobs s !! other
       /\ outputs s' !! other = outputs s !! other)
    /\ uploads s' = uploads s /\ minted s' = minted s
    /\ tasks s' = tasks s).
  { intros updates.
    destruct (update_job_frame updates s) as (H1 & H2 & H3 & H4 & H5).
    cbv zeta. rewrite H2, H3, H4, H5. repeat split; auto. }
  cbv zeta in *.
  destruct p; cbn [worker_step]; rewrite ?let_pair_snd; cbn [snd];
    try apply Hup;
    unfold get_job, get_job_data;
    repeat match goal with
      | |- context [match ?x with _ => _ end] => destruct x
      end;
    cbn [snd jobs uploads outputs minted tasks];
    repeat split; try reflexivity;
    try (now rewrite lookup_insert_ne).
Qed.

Ltac consistent_case :=
  unfold pc_record_ok, record_consistent in *; simpl in *;
  intuition (try congruence; try lia).

(** What one step of the worker does to a consistent record. *)
Lemma worker_step_consistent o p s :
  let ps := worker_step path_stem isspace job_id o p s in
  let r := jobs s !! job_id in
  let r' := jobs (snd ps) !! job_id in
  pc_record_ok p r ->
  pc_record_ok (fst ps) r'
  /\ match r, r' with
     | Some a, Some b => (progress_percent a <= progress_percent b)%Z
     | _, _ => True
     end.
Proof.
  intros ps r r' Hp. subst ps r r'.
  destruct p; cbn [worker_step];
    rewrite ?let_pair_snd; cbn [fst snd];
    rewrite ?update_job_lookup;
    unfold get_job, get_job_data;
    repeat match goal with
      | |- context [match extracted o with _ => _ end] =>
          destruct (extracted o)
      | |- context [match made_dir o with _ => _ end] =>
          destruct (made_dir o)
      | |- context [match generated o with _ => _ end] =>
          destruct (generated o)
      end;
    destruct (jobs s !! job_id) as [[]|] eqn:E; cbn [fst snd jobs];
    rewrite ?E; consistent_case.
Qed.

Lemma run_consistent trace p s :
  run path_stem isspace job_id trace p s ->
  hd_error trace = Some (jobs s !! job_id)
  /\ pc_record_ok p (jobs s !! job_id)
  /\ Forall record_ok trace
  /\ progress_monotone trace.
Proof.
  assert (Hok : forall p r, pc_record_ok p r -> record_ok r).
  { intros p0 [j|] H; [apply H | exact I]. }
  induction 1 as [filename upload_path params now s0 s
                  | o trace p s Hrun IH ps
                  | trace p s s' Hrun IH Hint].
  - subst s. unfold initialize_job. cbn [snd jobs with_jobs].
    rewrite lookup_insert_eq.
    assert (Hc : pc_record_ok at_get_job
                   (Some (mkJobData job_id PENDING filename upload_path
                            params now None None 0 "Queued" None None []
                            None None))).
    { unfold pc_record_ok, record_consistent. simpl.
      intuition (try congruence; try lia). }
    split; [reflexivity|]. split; [exact Hc|].
    split; [|exact I]. constructor; [|constructor]. eapply Hok, Hc.
  - destruct IH as (Hhd & Hp & Hall & Hmono).
    destruct (worker_step_consistent o p s Hp) as [Hp' Hle]. fold ps in Hp', Hle.
    split; [reflexivity|]. split; [exact Hp'|]. split.
    + constructor; [eapply Hok, Hp' | exact Hall].
    + destruct trace as [|r0 t]; [discriminate|].
      injection Hhd as ->. split; [|exact Hmono].
      destruct (jobs s !! job_id), (jobs (snd ps) !! job_id); auto.
  - destruct IH as (Hhd & Hp & Hall & Hmono).
    assert (Hp' : pc_record_ok p (jobs s' !! job_id)).
    { destruct Hint as [-> | ->]; [exact Hp | exact I]. }
    split; [reflexivity|]. split; [exact Hp'|]. split.
    + constructor; [eapply Hok, Hp' | exact Hall].
    + destruct trace as [|r0 t]; [discriminate|].
      injection Hhd as ->. split; [|exact Hmono].
      destruct Hint as [-> | ->]; [|now destruct (jobs s !! job_id)].
      destruct (jobs s !! job_id); [lia | exact I].
Qed.

(** X20. Along every run of a job, [progress_percent] never decreases
    and every record is consistent: progress is within 0..100, 0 while
    PENDING, at most 20 while PROCESSING or when FAILED, and 100 when
    COMPLETED; [output_files] is empty unless the job is COMPLETED;
    [error_message] is empty unless the job is FAILED; [started_at] is
    set exactly when the job has left PENDING, and [completed_at] is
    set when it is COMPLETED and not before the job ends. *)
Theorem job_records_consistent (trace : list (option JobData)) (p : pc)
    (s : State) :
  run path_stem isspace job_id trace p s ->
  Forall record_ok trace /\ progress_monotone trace.
Proof.
  intros H. apply run_consistent in H. tauto.
Qed.

End WorkerMore.

Section WorkerOutcome.

Import Backend.

Variable path_stem : string -> string.
Variable isspace : char -> bool.
Variable job_id : string.

Lemma worker_run_S fuel o p s :
  worker_run path_stem isspace (S fuel) job_id o p s
  = worker_run path_stem isspace fuel job_id o
      (fst (worker_step path_stem isspace job_id o p s))
      (snd (worker_step path_stem isspace job_id o p s)).
Proof.
  cbn [worker_run]. now destruct (worker_step path_stem isspace job_id o p s).
Qed.

Lemma worker_run_finished fuel o s :
  worker_run path_stem isspace fuel job_id o finished s = (finished, s).
Proof. induction fuel as [|fuel IH]; [reflexivity|]. exact IH. Qed.

Ltac step_read H :=
  rewrite worker_run_S; cbn [worker_step]; unfold get_job, get_job_data;
  rewrite H; cbn [fst snd].

Ltac step_update H s' H' :=
  rewrite worker_run_S; cbn [worker_step]; rewrite let_pair_snd;
  cbn [fst snd];
  match goal with
  | |- context [snd (update_job ?i ?u ?s)] =>
      set (s' := snd (update_job i u s));
      assert (H' : jobs s' !! i = Some (dict_update _ u))
        by (unfold s'; rewrite update_job_lookup, H; reflexivity)
  end.

Ltac step_stage := rewrite worker_run_S; cbn [worker_step fst snd].

Ltac finish_run H :=
  rewrite worker_run_finished; cbn [fst snd];
  split; [reflexivity|];
  eexists; split; [exact H|];
  match goal with
  | j : JobData |- _ => destruct j
  end;
  cbn; repeat split; reflexivity.

(** X21. [process_video_job], run to its end on a stored record with
    nothing else touching the storage, finishes within ten steps and
    leaves the job COMPLETED when extraction, directory creation and
    generation succeed (progress 100, the names of the written files in
    [output_files], [error_message] untouched), and FAILED with the text
    of the exception as [error_message] when one of them raises, the
    progress staying at what was reached (unchanged, 10 or 20) and
    [output_files] untouched; [started_at] and [completed_at] are set
    either way, and [total_words] once the text was extracted. *)
Theorem process_video_job_outcome (o : Oracle) (s : State) (j : JobData) :
  jobs s !! job_id = Some j ->
  fst (worker_run path_stem isspace 10 job_id o at_get_job s) = finished
  /\ exists j',
       jobs (process_video_job path_stem isspace job_id o s) !! job_id
       = Some j'
       /\ started_at j' = Some (now o)
       /\ completed_at j' = Some (now o)
       /\ match extracted o with
          | Raise e =>
              status j' = FAILED
              /\ error_message j' = Some (exn_str e)
              /\ progress_percent j' = progress_percent j
              /\ output_files j' = output_files j
          | Ok text =>
              total_words j'
              = Some (Z.of_nat
                        (length (Speedreading.tokenize_text isspace
                                   (Speedreading.clean_text isspace text))))
              /\ match made_dir o, generated o with
                 | Raise e, _ =>
                     status j' = FAILED
                     /\ error_message j' = Some (exn_str e)
                     /\ progress_percent j' = 10%Z
                     /\ output_files j' = output_files j
                 | Ok _, Raise e =>
                     status j' = FAILED
                     /\ error_message j' = Some (exn_str e)
                     /\ progress_percent j' = 20%Z
                     /\ output_files j' = output_files j
                 | Ok _, Ok files =>
                     status j' = COMPLETED
                     /\ error_message j' = error_message j
                     /\ progress_percent j' = 100%Z
                     /\ output_files j'
                        = (if float_truthy (chunk_duration (params j))
                           then files
                           else [path_stem (filename j) +:+ ".mp4"])
                 end
          end.
Proof.
  intros H. unfold process_video_job.
  step_read H.
  step_update H s1 H1.
  step_read H1.
  step_stage. destruct (extracted o) as [text|e].
  - cbn [fst snd]. step_update H1 s2 H2.
    step_stage. destruct (made_dir o) as [[]|e].
    + cbn [fst snd].
      rewrite worker_run_S; cbn [worker_step]; rewrite let_pair_snd;
        cbn [fst snd].
      match goal with
      | |- context [snd (update_job ?i ?u ?s)] =>
          set (s3 := snd (update_job i u s));
          assert (H3 : jobs s3 !! i = Some (dict_update _ u))
            by (unfold s3; rewrite update_job_lookup; cbn [jobs];
                rewrite H2; reflexivity)
      end.
      step_stage. destruct (generated o) as [files|e].
      * cbn [fst snd]. step_stage.
        rewrite worker_run_S; cbn [worker_step]; rewrite let_pair_snd;
          cbn [fst snd].
        match goal with
        | |- context [snd (update_job ?i ?u ?s)] =>
            set (s4 := snd (update_job i u s));
            assert (H4 : jobs s4 !! i = Some (dict_update _ u))
              by (unfold s4; rewrite update_job_lookup; cbn [jobs];
                  rewrite H3; reflexivity)
        end.
        finish_run H4.
      * cbn [fst snd]. step_update H3 s4 H4. finish_run H4.
    + cbn [fst snd]. step_update H2 s3 H3. finish_run H3.
  - cbn [fst snd]. step_update H1 s2 H2. finish_run H2.
Qed.

End WorkerOutcome.

(** ** Listing jobs *)

Section ListingFacts.

Import Backend.
Local Open Scope Z_scope.

Variable mtime : string -> Z.

Lemma insert_newest_perm x l : insert_newest mtime x l ≡ₚ x :: l.
Proof.
  induction l as [|y l IH]; cbn [insert_newest]; [reflexivity|].
  destruct (mtime y <=? mtime x); [reflexivity|].
  rewrite IH. apply Permutation_swap.
Qed.

Lemma sort_newest_first_perm l : sort_newest_first mtime l ≡ₚ l.
Proof.
  induction l as [|x l IH]; [reflexivity|].
  cbn [sort_newest_first fold_right]. fold (sort_newest_first mtime l).
  now rewrite insert_newest_perm, IH.
Qed.

Lemma insert_newest_sorted x l :
  StronglySorted (fun a b => mtime b <= mtime a) l ->
  StronglySorted (fun a b => mtime b <= mtime a) (insert_newest mtime x l).
Proof.
  induction 1 as [|y l Hl IH Hy]; cbn [insert_newest].
  - repeat constructor.
  - destruct (Z.leb_spec (mtime y) (mtime x)).
    + constructor; [now constructor|].
      constructor; [lia|].
      eapply Forall_impl; [exact Hy|]. intros z Hz. cbv beta in Hz. lia.
    + constructor; [exact IH|].
      rewrite insert_newest_perm. constructor; [lia | exact Hy].
Qed.

Lemma sort_newest_first_sorted l :
  StronglySorted (fun a b => mtime b <= mtime a) (sort_newest_first mtime l).
Proof.
  induction l as [|x l IH]; [constructor|].
  cbn [sort_newest_first fold_right]. now apply insert_newest_sorted.
Qed.

Lemma StronglySorted_sublist {A} (R : A -> A -> Prop) (l1 l2 : list A) :
  l1 `sublist_of` l2 -> StronglySorted R l2 -> StronglySorted R l1.
Proof.
  induction 1 as [|x l1 l2 Hsub IH|x l1 l2 Hsub IH]; intros Hs.
  - constructor.
  - apply StronglySorted_inv in Hs as [Hs Hx].
    constructor; [now apply IH|].
    apply Forall_forall. intros y Hy.
    eapply Forall_forall in Hx; [exact Hx|].
    eapply sublist_subseteq; eauto.
  - apply StronglySorted_inv in Hs as [Hs _]. now apply IH.
Qed.

Lemma py_slice_sublist {A} (l : list A) a b : py_slice l a b `sublist_of` l.
Proof.
  unfold py_slice. etransitivity; [apply sublist_take | apply sublist_drop].
Qed.

Lemma py_slice_nonneg {A} (l : list A) a b :
  0 <= a <= b ->
  py_slice l a b = take (Z.to_nat (b - a)) (drop (Z.to_nat a) l).
Proof.
  intros [Ha Hb]. unfold py_slice.
  destruct (Z.ltb_spec a 0); [lia|]. destruct (Z.ltb_spec b 0); [lia|].
  set (n := Z.of_nat (length l)).
  destruct (Z.le_gt_cases n a) as [Hna | Hna].
  - rewrite !drop_ge by lia. now rewrite !take_nil.
  - rewrite (Z.min_l a n) by lia.
    destruct (Z.le_gt_cases b n) as [Hbn | Hbn].
    + now rewrite (Z.min_l b n) by lia.
    + rewrite (Z.min_r b n) by lia.
      rewrite !take_ge; [reflexivity | |]; rewrite length_drop; lia.
Qed.

Lemma glob_jobs_lookup s job_id :
  job_id ∈ glob_jobs s <-> is_Some (jobs s !! job_id).
Proof.
  unfold glob_jobs. change (map fst (map_to_list (jobs s)))
    with ((map_to_list (jobs s)).*1).
  rewrite list_elem_of_fmap. split.
  - intros ([k v] & -> & Hin). apply elem_of_map_to_list in Hin. eauto.
  - intros [v Hv]. exists (job_id, v). split; [reflexivity|].
    now apply elem_of_map_to_list.
Qed.

Lemma page_ids_stored limit offset s job_id :
  job_id ∈ page_ids mtime limit offset s -> is_Some (jobs s !! job_id).
Proof.
  intros H. apply glob_jobs_lookup.
  rewrite <- (sort_newest_first_perm (glob_jobs s)).
  eapply sublist_subseteq; [apply py_slice_sublist | exact H].
Qed.

(** X22. [list_jobs] reports as total the number of stored records,
    whatever the page asked for. The page holds, for distinct ids of
    stored records taken newest first (non-increasing modification
    time), the response of each record, none being dropped; for a
    non-negative offset and limit it holds
    [min(limit, max(0, total - offset))] responses. *)
Theorem list_jobs_page (limit offset : Z) (s : State) :
  let ids := page_ids mtime limit offset s in
  let out := list_jobs mtime limit offset s in
  snd out = Z.of_nat (size (jobs s))
  /\ NoDup ids
  /\ StronglySorted (fun a b => mtime b <= mtime a) ids
  /\ Forall2 (fun job_id response =>
                exists job_data,
                  jobs s !! job_id = Some job_data
                  /\ response = to_response job_data)
       ids (fst out)
  /\ (0 <= offset -> 0 <= limit ->
      Z.of_nat (length (fst out))
      = Z.min limit (Z.max 0 (snd out - offset))).
Proof.
  intros ids out.
  assert (Hlen : length (sort_newest_first mtime (glob_jobs s))
                 = size (jobs s)).
  { rewrite (Permutation_length (sort_newest_first_perm (glob_jobs s))).
    unfold glob_jobs. rewrite length_map. apply length_map_to_list. }
  assert (Hall : Forall2 (fun job_id response =>
                   exists job_data,
                     jobs s !! job_id = Some job_data
                     /\ response = to_response job_data)
                   ids (omap (fun job_id => get_job job_id s) ids)).
  { assert (Hst : forall i, i ∈ ids -> is_Some (jobs s !! i))
      by (intros i; apply page_ids_stored).
    clearbody ids. induction ids as [|i ids IH]; [constructor|].
    destruct (Hst i ltac:(left)) as [jd Hjd].
    cbn [omap list_omap]. unfold get_job at 1. rewrite Hjd.
    constructor; [eauto|]. apply IH. intros k Hk. apply Hst. now right. }
  split; [unfold out, list_jobs; cbn [snd]; now rewrite Hlen|].
  split.
  { apply (sublist_NoDup _ (sort_newest_first mtime (glob_jobs s)));
      [|apply py_slice_sublist].
    rewrite sort_newest_first_perm. unfold glob_jobs.
    apply NoDup_fst_map_to_list. }
  split.
  { apply (StronglySorted_sublist _ _ _
             (py_slice_sublist _ offset (offset + limit))).
    apply sort_newest_first_sorted. }
  split; [exact Hall|].
  intros Ho Hl. apply Forall2_length in Hall.
  unfold out, list_jobs. cbn [fst snd]. fold ids. rewrite <- Hall.
  unfold ids, page_ids. rewrite py_slice_nonneg by lia.
  rewrite length_take, length_drop, Hlen. lia.
Qed.

(** X23. Pages tile the listing: for non-negative offset and sizes, the
    page of [a] jobs at [offset] followed by the page of [b] jobs at
    [offset + a] is the page of [a + b] jobs at [offset]; and the page at
    offset 0 with the total as limit lists every stored record once. *)
Theorem list_jobs_pages_compose (a b offset : Z) (s : State) :
  0 <= offset -> 0 <= a -> 0 <= b ->
  fst (list_jobs mtime a offset s) ++ fst (list_jobs mtime b (offset + a) s)
  = fst (list_jobs mtime (a + b) offset s)
  /\ page_ids mtime (snd (list_jobs mtime a offset s)) 0 s
     ≡ₚ glob_jobs s.
Proof.
  intros Ho Ha Hb. split.
  - unfold list_jobs. cbn [fst]. rewrite <- omap_app. f_equal.
    unfold page_ids. rewrite !py_slice_nonneg by lia.
    replace (offset + a - offset) with a by lia.
    replace (offset + a + b - (offset + a)) with b by lia.
    replace (offset + (a + b) - offset) with (a + b) by lia.
    replace (Z.to_nat (offset + a))
      with (Z.to_nat offset + Z.to_nat a)%nat by lia.
    rewrite <- drop_drop, take_take_drop. f_equal. lia.
  - unfold list_jobs, page_ids. cbn [snd].
    rewrite py_slice_nonneg by lia.
    rewrite drop_0, take_ge by lia.
    apply sort_newest_first_perm.
Qed.

End ListingFacts.

Lemma list_jobs_pages_compose_witness :
  let s :=
    snd (Backend.initialize_job "1a2b3c4d" "book.txt"
           "storage/uploads/1a2b3c4d_book.txt" Backend.default_params
           "2026-01-01T00:00:00"
           (snd (Backend.initialize_job "9f8e7d6c" "notes.txt"
                   "storage/uploads/9f8e7d6c_notes.txt"
                   Backend.default_params "2026-01-01T00:00:01"
                   Backend.empty_state))) in
  let mtime := fun job_id : string =>
    if String.eqb job_id "1a2b3c4d" then 5%Z else 7%Z in
  (0 <= 0)%Z /\ (0 <= 1)%Z /\ (0 <= 1)%Z
  /\ map Backend.r_id (fst (Backend.list_jobs mtime 1 0 s)
                       ++ fst (Backend.list_jobs mtime 1 (0 + 1) s))
     = ["9f8e7d6c"; "1a2b3c4d"].
Proof.
  intros s mtime.
  assert (H0 : (0 <= 0)%Z) by lia.
  assert (H1 : (0 <= 1)%Z) by lia.
  split; [exact H0|]. split; [exact H1|]. split; [exact H1|].
  rewrite (proj1 (list_jobs_pages_compose mtime 1 1 0 s H0 H1 H1)).
  vm_compute. reflexivity.
Defined.

Lemma job_records_consistent_witness :
  let o :=
    Backend.mkOracle "2026-01-01T00:00:05" (Ok (str_of "Hello, world."))
      (Ok tt) (Raise (StageError "encoder not found")) 0 in
  let step := Backend.run_worker Backend.plain_stem ascii_isspace "1a2b3c4d" o in
  exists trace s,
    Backend.run Backend.plain_stem ascii_isspace "1a2b3c4d" trace
      Backend.finished s
    /\ length trace = 10%nat
    /\ Forall Backend.record_ok trace
    /\ Backend.progress_monotone trace.
Proof.
  intros o step.
  pose proof
    (step _ _ _ (step _ _ _ (step _ _ _ (step _ _ _ (step _ _ _
       (step _ _ _ (step _ _ _ (step _ _ _ (step _ _ _
       (Backend.run_submit Backend.plain_stem ascii_isspace "1a2b3c4d"
          "book.txt" "storage/uploads/1a2b3c4d_book.txt"
          Backend.default_params "2026-01-01T00:00:00"
          Backend.empty_state))))))))))
    as Hrun.
  cbv zeta in Hrun.
  eexists. eexists.
  split; [exact Hrun|].
  split; [reflexivity|].
  exact (job_records_consistent Backend.plain_stem ascii_isspace "1a2b3c4d"
           _ _ _ Hrun).
Defined.

Lemma process_video_job_outcome_witness :
  let o :=
    Backend.mkOracle "2026-01-01T00:00:05" (Ok (str_of "Hello, world."))
      (Ok tt) (Ok []) 3 in
  let s :=
    snd (Backend.initialize_job "1a2b3c4d" "book.txt"
           "storage/uploads/1a2b3c4d_book.txt" Backend.default_params
           "2026-01-01T00:00:00" Backend.empty_state) in
  exists j j',
    Backend.jobs s !! "1a2b3c4d" = Some j
    /\ Backend.jobs
         (Backend.process_video_job Backend.plain_stem ascii_isspace
            "1a2b3c4d" o s) !! "1a2b3c4d" = Some j'
    /\ Backend.status j' = Backend.COMPLETED
    /\ Backend.output_files j' = ["book.mp4"]
    /\ Backend.total_words j' = Some 2%Z.
Proof.
  intros o s. eexists.
  assert (H : Backend.jobs s !! "1a2b3c4d"
              = Some (Backend.mkJobData "1a2b3c4d" Backend.PENDING
                        "book.txt" "storage/uploads/1a2b3c4d_book.txt"
                        Backend.default_params "2026-01-01T00:00:00" None
                        None 0 "Queued" None None [] None None))
    by (vm_compute; reflexivity).
  destruct (process_video_job_outcome Backend.plain_stem ascii_isspace
              "1a2b3c4d" o s _ H)
    as (_ & j' & Hj' & _ & _ & Hwords & Hst & _ & _ & Hout).
  exists j'. split; [exact H|]. split; [exact Hj'|].
  split; [exact Hst|]. split; [exact Hout | exact Hwords].
Defined.
